(** * Gherkin Auto-Complete Plus: step parsing, normalisation and completion

    A shallow embedding of
      - [utilities/gherkin_parser.py]  (class [GherkinParser]) and
      - [gherkin_event_listener.py]    (class [GherkinEventListener]),
    together with the properties of the step catalogue and of the
    per-keystroke matching and formatting operations.

    Python [str] values are modelled as [string] over the code points
    0..255; [set] values as [gset]; the module-level [completions] dict as a
    [gmap] keyed by the step text. *)

From Stdlib Require Import Ascii NArith DecimalString.
From stdpp Require Import base gmap sets list strings sorting.

Set Warnings "-clear-no-such-hyp".

Local Open Scope N_scope.

(** ** The [str] methods used by the plugin *)

Module Str.

Definition code (c : ascii) : N := N_of_ascii c.

(** The tab character, as a text. *)
Definition tab : string := String "009" EmptyString.

(** The double quote character, and a text between double quotes. *)
Definition dquote : ascii := "034".
Definition quoted (s : string) : string :=
  String dquote (s +:+ String dquote EmptyString).

(** [str.isspace] on one character (code points below 256). *)
Definition isspace (c : ascii) : bool :=
  let n := code c in
  ((9 <=? n) && (n <=? 13)) || ((28 <=? n) && (n <=? 32))
  || (n =? 133) || (n =? 160).

(** The class [\d] of [re], and the characters [int] accepts. *)
Definition isdigit (c : ascii) : bool :=
  let n := code c in (48 <=? n) && (n <=? 57).

Definition lower_char (c : ascii) : ascii :=
  let n := code c in
  if ((65 <=? n) && (n <=? 90))
     || ((192 <=? n) && (n <=? 222) && negb (n =? 215))
  then ascii_of_N (n + 32) else c.

(** [s.lower()] *)
Fixpoint lower (s : string) : string :=
  match s with
  | EmptyString => EmptyString
  | String c s' => String (lower_char c) (lower s')
  end.

Definition is_empty (s : string) : bool :=
  match s with EmptyString => true | String _ _ => false end.

(** [s.lstrip()] *)
Fixpoint lstrip (s : string) : string :=
  match s with
  | EmptyString => EmptyString
  | String c s' => if isspace c then lstrip s' else s
  end.

(** [s.rstrip()] *)
Fixpoint rstrip (s : string) : string :=
  match s with
  | EmptyString => EmptyString
  | String c s' =>
      let r := rstrip s' in
      if is_empty r && isspace c then EmptyString else String c r
  end.

(** [s.strip()] *)
Definition strip (s : string) : string := rstrip (lstrip s).

(** The longest prefix without white space, and what follows it. *)
Fixpoint span_word (s : string) : string * string :=
  match s with
  | EmptyString => (EmptyString, EmptyString)
  | String c s' =>
      if isspace c then (EmptyString, s)
      else let '(w, r) := span_word s' in (String c w, r)
  end.

Definition starts_word (s : string) : bool :=
  match s with
  | EmptyString => false
  | String c _ => negb (isspace c)
  end.

(** [s.split()]: the maximal runs of characters that are not white space. *)
Fixpoint split (s : string) : list string :=
  match s with
  | EmptyString => []
  | String c s' =>
      if isspace c then split s'
      else if starts_word s' then
        match split s' with
        | w :: ws => String c w :: ws
        | [] => [String c EmptyString]
        end
      else String c EmptyString :: split s'
  end.

(** [s.split(maxsplit=1)]: the first word, then the rest of the text from
    its first character that is not white space, when there is one. *)
Definition split_max1 (s : string) : list string :=
  let s1 := lstrip s in
  if is_empty s1 then []
  else
    let '(w, r) := span_word s1 in
    let r' := lstrip r in
    if is_empty r' then [w] else [w; r'].

(** [s.split(' ', 1)]: cut at the first space character. *)
Fixpoint split_space1 (s : string) : list string :=
  match s with
  | EmptyString => [EmptyString]
  | String c s' =>
      if Ascii.eqb c " " then [EmptyString; s']
      else
        match split_space1 s' with
        | h :: t => String c h :: t
        | [] => [String c EmptyString]
        end
  end.

(** [sep.join(l)] *)
Fixpoint join (sep : string) (l : list string) : string :=
  match l with
  | [] => EmptyString
  | [x] => x
  | x :: r => x +:+ sep +:+ join sep r
  end.

Fixpoint drop (n : nat) (s : string) : string :=
  match n, s with
  | O, _ => s
  | S n', String _ s' => drop n' s'
  | S _, EmptyString => EmptyString
  end.

(** [s.startswith(p)] *)
Fixpoint startswith (p s : string) : bool :=
  match p, s with
  | EmptyString, _ => true
  | String a p', String b s' => Ascii.eqb a b && startswith p' s'
  | String _ _, EmptyString => false
  end.

(** [s.replace(old, new, 1)]: the leftmost occurrence only. *)
Fixpoint replace1 (old new s : string) : string :=
  if startswith old s then new +:+ drop (String.length old) s
  else
    match s with
    | EmptyString => EmptyString
    | String c s' => String c (replace1 old new s')
    end.

(** [c in s] for a single character [c]. *)
Fixpoint contains (c : ascii) (s : string) : bool :=
  match s with
  | EmptyString => false
  | String a s' => Ascii.eqb a c || contains c s'
  end.

(** [all(f(c) for c in s)] *)
Fixpoint all (f : ascii → bool) (s : string) : bool :=
  match s with
  | EmptyString => true
  | String c s' => f c && all f s'
  end.

(** [enumerate(s)] *)
Fixpoint enumerate_from (i : nat) (s : string) : list (nat * ascii) :=
  match s with
  | EmptyString => []
  | String c s' => (i, c) :: enumerate_from (S i) s'
  end.
Definition enumerate : string → list (nat * ascii) := enumerate_from 0.

(** [str(n)] for a non-negative integer. *)
Definition of_nat (n : nat) : string := NilZero.string_of_uint (Nat.to_uint n).

(** [f.readlines()] on the decoded text of a file: every line keeps its
    terminator; a last line without one is a line too. *)
Fixpoint readlines (s : string) : list string :=
  match s with
  | EmptyString => []
  | String c s' =>
      if Ascii.eqb c "010" then String c EmptyString :: readlines s'
      else
        match readlines s' with
        | l :: ls => String c l :: ls
        | [] => [String c EmptyString]
        end
  end.

(** [s.endswith(suffix)] *)
Definition endswith (suffix s : string) : bool :=
  (String.length suffix <=? String.length s)%nat
  && String.eqb (drop (String.length s - String.length suffix) s) suffix.

End Str.

(** ** The part of [re] the plugin uses

    A pattern is given by its matcher at the start of a text: the text it
    matches there, if any.  The matchers below are those of the pieces of the
    two regular expressions of the plugin, with the choices of a backtracking
    engine: alternatives in order, [+] and [*] greedy, [+?] lazy. *)

Module Re.

Definition pattern := string → option string.

(** [.] is any character but a newline. *)
Definition dot (c : ascii) : bool := negb (Ascii.eqb c "010").

(** The rest of [.+?c] once its first character is read: stop at the first
    [c]; fail when a newline comes first or the text ends. *)
Fixpoint lazy_until (close : ascii) (s : string) : option string :=
  match s with
  | EmptyString => None
  | String c s' =>
      if Ascii.eqb c close then Some (String c EmptyString)
      else if dot c then String c <$> lazy_until close s'
      else None
  end.

(** [o.+?c] *)
Definition delimited (open close : ascii) : pattern := λ s,
  match s with
  | String o (String c s') =>
      if Ascii.eqb o open && dot c
      then (λ m, String o (String c m)) <$> lazy_until close s'
      else None
  | _ => None
  end.

(** The longest run of digits at the start: a greedy [\d] loop. *)
Fixpoint digits (s : string) : string :=
  match s with
  | EmptyString => EmptyString
  | String c s' => if Str.isdigit c then String c (digits s') else EmptyString
  end.

(** One digit or more, then at will a dot and the digits behind it: the
    first numeric alternative, [\d+] with the group [\.] [\d] loop. *)
Definition number : pattern := λ s,
  let d := digits s in
  if Str.is_empty d then None
  else
    match Str.drop (String.length d) s with
    | String c r =>
        if Ascii.eqb c "." then Some (d +:+ String c (digits r)) else Some d
    | EmptyString => Some d
    end.

(** A dot and one digit or more: the second numeric alternative. *)
Definition dot_number : pattern := λ s,
  match s with
  | String c r =>
      if Ascii.eqb c "." then
        let d := digits r in
        if Str.is_empty d then None else Some (String c d)
      else None
  | EmptyString => None
  end.

(** A literal text. *)
Definition literal (p : string) : pattern := λ s,
  if Str.startswith p s then Some p else None.

(** [p|q] *)
Definition alt (p q : pattern) : pattern := λ s,
  match p s with
  | Some m => Some m
  | None => q s
  end.

(** [re.findall(p, s)] for a pattern whose only group is the whole pattern
    and which matches no empty text: scan from the left; after a match go
    on behind it, otherwise move on by one character.  [skip] counts the
    characters of the last match still to be passed. *)
Fixpoint findall_from (p : pattern) (skip : nat) (s : string) : list string :=
  match s with
  | EmptyString => []
  | String _ s' =>
      match skip with
      | S k => findall_from p k s'
      | O =>
          match p s with
          | Some m => m :: findall_from p (String.length m - 1) s'
          | None => findall_from p 0 s'
          end
      end
  end.

Definition findall (p : pattern) (s : string) : list string :=
  findall_from p 0 s.

End Re.

(** ** [utilities/gherkin_parser.py] *)

(** A step is the pair [(keyword, body)]. *)
Abbreviation step := (string * string)%type.

Module GherkinParser.

Definition main_words : list string := ["given"; "when"; "then"].
Definition extra_words : list string := ["and"; "but"].

(** The body of the loop over the lines of one file, on the pair of
    [last_main_word] and [steps]. *)
Definition get_steps_line (st : string * gset step) (line : string)
    : string * gset step :=
  let '(last_main_word, steps) := st in
  match Str.split_max1 line with
  | w :: rest :: _ =>
      let first_word := Str.lower w in
      if bool_decide (first_word ∈ main_words) then
        let last_main_word := Str.lower first_word in
        (last_main_word, {[ (last_main_word, Str.strip rest) ]} ∪ steps)
      else if bool_decide (first_word ∈ extra_words) then
        (last_main_word, {[ (last_main_word, Str.strip rest) ]} ∪ steps)
      else st
  | _ => st
  end.

(** One turn of the loop over the files, on [steps]: [last_main_word]
    starts again from the empty text. *)
Definition get_steps_file (steps : gset step) (content : string) : gset step :=
  (foldl get_steps_line (EmptyString, steps) (Str.readlines content)).2.

(** [get_steps], each file given by the text [readlines] reads from it;
    [None] is Python's [None]. *)
Definition get_steps (files : option (list string)) : gset step :=
  foldl get_steps_file ∅ (default [] files).

(** Whether a line starts with one of [main_words], as [get_steps] reads
    its first word. *)
Definition starts_with_main_word (line : string) : bool :=
  match Str.split_max1 line with
  | w :: _ => bool_decide (Str.lower w ∈ main_words)
  | [] => false
  end.


(** The characters that open a quoted or bracketed value. *)
Definition opens_value (c : ascii) : bool :=
  Ascii.eqb c Str.dquote || Ascii.eqb c "'" || Ascii.eqb c "<".

(** A body without a character that opens a value: the scan can find
    nothing but numbers in it. *)
Definition plain (body : string) : bool :=
  Str.all (λ c, negb (opens_value c)) body.

(** A text without a digit. *)
Definition no_digit (body : string) : bool :=
  Str.all (λ c, negb (Str.isdigit c)) body.


(** The regular expression of [format_steps]. *)
Definition regex : Re.pattern :=
  Re.alt (Re.delimited Str.dquote Str.dquote)
    (Re.alt (Re.delimited "'" "'")
       (Re.alt (Re.delimited "<" ">")
          (Re.alt Re.number Re.dot_number))).

(** [_is_int(c)] for a single character. *)
Definition _is_int (c : ascii) : bool := Str.isdigit c.

(** The body of the loop over [replace_values]. *)
Definition replace_value (body word : string) : string :=
  match word with
  | EmptyString => body
  | String c _ =>
      if Ascii.eqb c Str.dquote then Str.replace1 word (Str.quoted "input") body
      else if Ascii.eqb c "'" then Str.replace1 word "'input'" body
      else if Ascii.eqb c "<" then Str.replace1 word "<input>" body
      else if _is_int c || Ascii.eqb c "." then Str.replace1 word "[number]" body
      else body
  end.

Definition format_body (body : string) : string :=
  foldl replace_value body (Re.findall regex body).

Definition format_step (s : step) : step := (s.1, format_body s.2).

(** [format_steps] *)
Definition format_steps (steps : option (gset step)) : gset step :=
  set_map format_step (default ∅ steps).

(** *** Opening and closing the files

    [get_steps] takes file objects and file names.  A file object (it has a
    [read] attribute) is read as it is; a name is opened, read, and closed
    by [file.close()] after the loop over its lines.  [open] and
    [readlines] may raise; nothing in [get_steps] catches an exception. *)

Inductive file :=
| FileObject (lines : option string)
    (** what [readlines] gives on the object: a text, or it raises *)
| FileName (name : string).

(** What [open(name)] gives: [None] when it raises, otherwise the file,
    by what [readlines] gives on it. *)
Definition filesystem := string → option (option string).

Inductive outcome (A : Type) :=
| Returned (a : A)
| Raised.
Global Arguments Returned {A} a.
Global Arguments Raised {A}.

(** [file.close()]: the file leaves the files that are open. *)
Fixpoint close (name : string) (open_files : list string) : list string :=
  match open_files with
  | [] => []
  | f :: fs => if bool_decide (f = name) then fs else f :: close name fs
  end.

(** The loop over [files], on [steps] and on the files [get_steps] has
    opened and not closed. *)
Fixpoint get_steps_from (fs : filesystem) (files : list file)
    (steps : gset step) (open_files : list string)
    : outcome (gset step) * list string :=
  match files with
  | [] => (Returned steps, open_files)
  | FileObject lines :: files' =>
      match lines with
      | None => (Raised, open_files)
      | Some content =>
          get_steps_from fs files' (get_steps_file steps content) open_files
      end
  | FileName name :: files' =>
      match fs name with
      | None => (Raised, open_files)
      | Some lines =>
          let open_files := name :: open_files in
          match lines with
          | None => (Raised, open_files)
          | Some content =>
              get_steps_from fs files' (get_steps_file steps content)
                (close name open_files)
          end
      end
  end.

Definition get_steps_io (fs : filesystem) (files : option (list file))
    : outcome (gset step) * list string :=
  get_steps_from fs (default [] files) ∅ [].

(** The text [readlines] gives for a file, when [open] and [readlines] do
    not raise. *)
Definition read (fs : filesystem) (f : file) : option string :=
  match f with
  | FileObject lines => lines
  | FileName name => mjoin (fs name)
  end.

(** What holds of every step found: the keyword is the empty text or one
    of [main_words]; the body is not empty and is stripped. *)
Definition well_formed (s : step) : Prop :=
  (s.1 = EmptyString ∨ s.1 ∈ main_words)
  ∧ s.2 ≠ EmptyString ∧ Str.strip s.2 = s.2.

(** The same of the word and the steps the loop over the lines holds. *)
Definition well_formed_state (st : string * gset step) : Prop :=
  (st.1 = EmptyString ∨ st.1 ∈ main_words) ∧ ∀ s, s ∈ st.2 → well_formed s.

(** The three kinds of values with marks around them: the mark that opens
    the value, the mark that closes it, and the text [format_steps] puts. *)
Definition value_classes : list (ascii * ascii * string) :=
  [(Str.dquote, Str.dquote, Str.quoted "input");
   ("'"%char, "'"%char, "'input'");
   ("<"%char, ">"%char, "<input>")].

(** *** Finding the feature files, and the whole run

    [glob] stands for [glob.glob]: the paths a pattern matches, in the
    order [glob.glob] lists them. *)

(** The body of the loop of [get_feature_files], on [files]. *)
Definition add_feature_files (glob : string → list string)
    (files : list string) (path : string) : list string :=
  let path := if negb (Str.endswith "/" path) then path +:+ "/" else path in
  files ++ glob (path +:+ "*.feature").

(** [get_feature_files] *)
Definition get_feature_files (glob : string → list string)
    (directories : option (list string)) : list string :=
  foldl (add_feature_files glob) [] (default [] directories).

(** [run]: the names found are opened, read and closed by [get_steps]; an
    exception of [get_steps] passes through.  [__init__] wraps the three
    methods by [log_function] of [log_utilities], which is not among the
    sources: the wrapped method is taken to return what the method returns
    and to raise what it raises. *)
Definition run (glob : string → list string) (fs : filesystem)
    (directories : option (list string)) : outcome (gset step) * list string :=
  let filenames := get_feature_files glob directories in
  match get_steps_io fs (Some (FileName <$> filenames)) with
  | (Returned steps, open_files) =>
      (Returned (format_steps (Some steps)), open_files)
  | (Raised, open_files) => (Raised, open_files)
  end.

End GherkinParser.

(** ** [gherkin_event_listener.py] *)

Module GherkinEventListener.

Definition keywords : list string := ["given"; "when"; "then"].

(** The body of the loop of [_step_matches_line], on [match]. *)
Definition check_char (step_text : string) (matches : bool)
    (ic : nat * ascii) : bool :=
  let '(index, char) := ic in
  if bool_decide (String.get index step_text ≠ Some char)
  then false else matches.

(** [_step_matches_line] *)
Definition _step_matches_line (step_words line_words : list string) : bool :=
  let line_text := Str.join " " (tail line_words) in
  let step_text := Str.join " " step_words in
  if (String.length line_text <=? String.length step_text)%nat then
    foldl (check_char step_text) true (Str.enumerate line_text)
  else false.

(** The regular expression of [_format_step]. *)
Definition regex : Re.pattern :=
  Re.alt (Re.delimited Str.dquote Str.dquote)
    (Re.alt (Re.delimited "'" "'")
       (Re.alt (Re.delimited "<" ">")
          (Re.literal "[number]"))).

(** The body of the loop over [replace_values], on [step] and [index]. *)
Definition snippet_value (st : string * nat) (word : string) : string * nat :=
  let '(step, index) := st in
  match word with
  | EmptyString => st
  | String c _ =>
      if Ascii.eqb c Str.dquote then
        (Str.replace1 word (Str.quoted ("${" +:+ Str.of_nat index +:+ ":input}")) step,
         S index)
      else if Ascii.eqb c "'" then
        (Str.replace1 word ("'${" +:+ Str.of_nat index +:+ ":input}'") step,
         S index)
      else if Ascii.eqb c "<" then
        (Str.replace1 word ("<${" +:+ Str.of_nat index +:+ ":input}>") step,
         S index)
      else if Ascii.eqb c "[" then
        (Str.replace1 word ("${" +:+ Str.of_nat index +:+ ":[number]}") step,
         S index)
      else st
  end.

(** The first loop of [_format_step]: every character of [line_text] in
    turn is taken out of [step] where it first occurs. *)
Fixpoint remove_chars (line_text step : string) : string :=
  match line_text with
  | EmptyString => step
  | String c line_text' =>
      remove_chars line_text' (Str.replace1 (String c EmptyString) EmptyString step)
  end.

(** [_format_step]; [line_words] is [[]] when the caller gives none. *)
Definition _format_step (step : string) (line_words : list string) : string :=
  let line_text := Str.join " " (removelast (tail line_words)) in
  let step := remove_chars line_text step in
  let replace_values := Re.findall regex step in
  Str.strip (foldl snippet_value (step, 1%nat) replace_values).1.

(** The search for [last_keyword] in [_fill_completions]: the first word
    of the current line when it is a keyword, otherwise the lines before
    the current one, from the nearest, until one starts with a keyword. *)
Fixpoint scan_back (lines : list string) : string :=
  match lines with
  | [] => EmptyString
  | region_text :: lines' =>
      match Str.split_space1 (Str.lstrip region_text) with
      | w :: _ =>
          if bool_decide (Str.lower w ∈ keywords) then Str.lower w
          else scan_back lines'
      | [] => scan_back lines'
      end
  end.

Definition find_last_keyword (current_line_words : list string)
    (preceding : list string) : string :=
  match current_line_words with
  | w :: _ =>
      if bool_decide (Str.lower w ∈ keywords) then Str.lower w
      else scan_back (reverse preceding)
  | [] => scan_back (reverse preceding)
  end.

(** The body of the loop over [steps], on [completions]. *)
Definition fill_step (last_keyword : string) (current_line_words : list string)
    (completions : gmap string (string * string)) (st : step)
    : gmap string (string * string) :=
  let '(step_type, step) := st in
  if bool_decide (step_type = last_keyword) then
    if (length current_line_words =? 1)%nat then
      let step_format := _format_step step [] in
      <[step := (step +:+ Str.tab +:+ step_type, step_format)]>
        completions
    else if (1 <? length current_line_words)%nat then
      if _step_matches_line (Str.split step) current_line_words then
        let step_format := _format_step step current_line_words in
        <[step := (step +:+ Str.tab +:+ step_type, step_format)]>
          completions
      else completions
    else completions
  else completions.

(** The loop over [steps] that ends [_fill_completions]. *)
Definition build_completions (steps : list step) (last_keyword : string)
    (current_line_words : list string)
    (completions : gmap string (string * string))
    : gmap string (string * string) :=
  foldl (fill_step last_keyword current_line_words) completions steps.

Definition no_keyword_warning : string :=
  "Could not find 'Given', 'When', or 'Then' in text.".

(** [_fill_completions], on the catalogue [steps] and the dict
    [completions], for the text of the current line and the texts of the
    lines before it; the result is the dict and what was logged. *)
Definition _fill_completions (steps : list step)
    (completions : gmap string (string * string))
    (current_line : string) (preceding : list string)
    : gmap string (string * string) * list string :=
  let current_line_text := Str.strip current_line in
  let current_line_words := Str.split current_line_text in
  if negb (Str.contains " " current_line_text) then (completions, [])
  else
    let last_keyword := find_last_keyword current_line_words preceding in
    if Str.is_empty last_keyword then (completions, [no_keyword_warning])
    else (build_completions steps last_keyword current_line_words completions, []).

(** The keyword a line before the current one starts with, as the scan
    back reads it: the text before its first space, lower-cased, when that
    is a keyword. *)
Definition line_keyword (region_text : string) : option string :=
  match Str.split_space1 (Str.lstrip region_text) with
  | w :: _ =>
      if bool_decide (Str.lower w ∈ keywords) then Some (Str.lower w) else None
  | [] => None
  end.

(** The characters a placeholder of a catalogue step starts with. *)
Definition marks (c : ascii) : bool :=
  GherkinParser.opens_value c || Ascii.eqb c "[".

(** A text without such a character. *)
Definition unmarked (s : string) : bool := Str.all (λ c, negb (marks c)) s.

(** The four placeholders of a catalogue step, each with the text
    [_format_step] puts for it at a given index. *)
Definition snippet_classes : list (string * (nat → string)) :=
  [(Str.quoted "input", λ n, Str.quoted ("${" +:+ Str.of_nat n +:+ ":input}"));
   ("'input'", λ n, "'${" +:+ Str.of_nat n +:+ ":input}'");
   ("<input>", λ n, "<${" +:+ Str.of_nat n +:+ ":input}>");
   ("[number]", λ n, "${" +:+ Str.of_nat n +:+ ":[number]}")].

(** [_is_feature_file], by the truth value of what it returns;
    [file_name] is [None] for a view without a file. *)
Definition _is_feature_file (file_name : option string) : bool :=
  match file_name with
  | None => false
  | Some name => negb (Str.is_empty name) && Str.endswith ".feature" name
  end.

(** The order of Python on pairs of texts: by the first texts, and by the
    second ones when the first are equal; texts by their characters from
    the left, a text before the longer texts it starts. *)
Definition tuple_le (a b : string * string) : bool :=
  match String.compare a.1 b.1 with
  | Lt => true
  | Eq => String.leb a.2 b.2
  | Gt => false
  end.

(** [sorted(l)] on a list of pairs of texts. *)
Definition sorted (l : list (string * string)) : list (string * string) :=
  merge_sort (λ a b, tuple_le a b) l.

(** [on_query_completions]: the list returned, and [completions] after
    [completions.clear()]. *)
Definition on_query_completions (completions : gmap string (string * string))
    : list (string * string) * gmap string (string * string) :=
  let _completions := (map_to_list completions).*2 in
  (sorted _completions, ∅).

(** How [_update_steps] ends. *)
Inductive update_end :=
| Updated
| DirectoriesError  (** [sublime.error_message(directories_error)] *)
| UpdateRaised.     (** an exception of [parser.run] *)

(** [_update_steps], on the list [steps], for the folders of the window
    ([window.folders()]) and the directories of the settings
    ([settings.get_feature_directories()], of a module that is not among
    the sources); [self._logging_level] is taken to be set.  The steps of
    the set [run] returns are put in the list in the order the set gives
    them. *)
Definition _update_steps (glob : string → list string)
    (fs : GherkinParser.filesystem)
    (folders additional_directories : list string) (steps : list step)
    : list step * update_end :=
  let target_directories := folders ++ additional_directories in
  match target_directories with
  | [] => (steps, DirectoriesError)
  | _ =>
      let steps : list step := [] in
      match (GherkinParser.run glob fs (Some target_directories)).1 with
      | GherkinParser.Returned new_steps =>
          (steps ++ elements new_steps, Updated)
      | GherkinParser.Raised => (steps, UpdateRaised)
      end
  end.

End GherkinEventListener.

(** ** The texts of the examples *)

Module Examples.

(** The catalogue step: I have, the quoted placeholder, apples. *)
Definition step_input : string := "I have " +:+ Str.quoted "input" +:+ " apples".

(** The step as a feature file has it, with the value 5 between quotes. *)
Definition step_five : string := "I have " +:+ Str.quoted "5" +:+ " apples".

(** The typed line that ends behind the 5 of an open quote, and the one
    that ends at the open quote. *)
Definition typed_five : string := "Given I have " +:+ String Str.dquote "5".
Definition typed_quote : string :=
  "Given I have " +:+ String Str.dquote EmptyString.


(** The snippet of the step without and with the words I have. *)
Definition snippet_tail : string := Str.quoted "${1:input}" +:+ " apples".
Definition snippet_whole : string := "I have " +:+ snippet_tail.

End Examples.

(** * Properties *)

(** ** Texts *)

Section text_facts.

Lemma app_cons c (s t : string) : String c s +:+ t = String c (s +:+ t).
Proof. reflexivity. Qed.

Lemma app_empty_r (s : string) : s +:+ EmptyString = s.
Proof. induction s as [|c s IH]; [done|]. by rewrite app_cons, IH. Qed.

Lemma app_assoc' (s t u : string) : (s +:+ t) +:+ u = s +:+ t +:+ u.
Proof. induction s as [|c s IH]; [done|]. by rewrite !app_cons, IH. Qed.

Lemma length_app' (s t : string) :
  String.length (s +:+ t) = (String.length s + String.length t)%nat.
Proof. induction s as [|c s IH]; [done|]. rewrite app_cons. simpl. by rewrite IH. Qed.

Lemma startswith_refl (s t : string) : Str.startswith s (s +:+ t) = true.
Proof.
  induction s as [|c s IH]; [done|].
  rewrite app_cons. simpl. by rewrite Ascii.eqb_refl, IH.
Qed.

Lemma startswith_app (p s : string) :
  Str.startswith p s = true → s = p +:+ Str.drop (String.length p) s.
Proof.
  revert s. induction p as [|a p IH]; intros [|b s]; simpl; try done.
  intros [Hab Hp]%andb_prop. apply Ascii.eqb_eq in Hab as ->.
  rewrite app_cons. f_equal. by apply IH.
Qed.

Lemma drop_app (s t : string) : Str.drop (String.length s) (s +:+ t) = t.
Proof. induction s as [|c s IH]; [done|]. by rewrite app_cons. Qed.


(** [s[i]] is the first character of what is left of [s] behind [i]. *)
Lemma get_drop (i : nat) (s : string) :
  String.get i s = match Str.drop i s with
                   | String c _ => Some c
                   | EmptyString => None
                   end.
Proof.
  revert s. induction i as [|i IH]; intros [|c s]; simpl; auto.
Qed.

Lemma drop_S (i : nat) (s : string) :
  Str.drop (S i) s = match Str.drop i s with
                     | String _ r => r
                     | EmptyString => EmptyString
                     end.
Proof.
  revert s. induction i as [|i IH]; intros [|c s]; try done.
  change (Str.drop (S (S i)) (String c s)) with (Str.drop (S i) s).
  by rewrite IH.
Qed.

End text_facts.

(** ** Matching a step against the typed line *)

Section matching.
Import GherkinEventListener.

Lemma foldl_check_char (step_text line_text : string) (i : nat) (m : bool) :
  foldl (check_char step_text) m (Str.enumerate_from i line_text)
  = m && Str.startswith line_text (Str.drop i step_text).
Proof.
  revert i m. induction line_text as [|c l IH]; intros i m; simpl.
  - by rewrite andb_true_r.
  - rewrite IH, drop_S. unfold check_char. rewrite get_drop.
    destruct (Str.drop i step_text) as [|b r]; simpl.
    + by rewrite andb_false_r.
    + destruct (Ascii.eqb c b) eqn:Hcb.
      * apply Ascii.eqb_eq in Hcb as ->.
        rewrite bool_decide_false by (intros H; by apply H). done.
      * apply Ascii.eqb_neq in Hcb.
        rewrite bool_decide_true by congruence. by rewrite andb_false_r.
Qed.

(** [_step_matches_line] holds exactly when the typed text behind the
    keyword starts the text of the step, character by character. *)
Lemma step_matches_line_startswith (step_words line_words : list string) :
  _step_matches_line step_words line_words
  = Str.startswith (Str.join " " (tail line_words)) (Str.join " " step_words).
Proof.
  unfold _step_matches_line, Str.enumerate.
  rewrite (foldl_check_char (Str.join " " step_words)
             (Str.join " " (tail line_words)) 0 true).
  change (Str.drop 0 (Str.join " " step_words)) with (Str.join " " step_words).
  rewrite andb_true_l.
  destruct (_ <=? _)%nat eqn:Hlen; [done|].
  apply Nat.leb_gt in Hlen.
  destruct (Str.startswith _ _) eqn:Hs; [|done].
  apply startswith_app in Hs. apply (f_equal String.length) in Hs.
  rewrite length_app' in Hs. lia.
Qed.

End matching.

(** C1, as the code has it: for the step [I have "input" apples] and the
    typed line that ends with an open quote and a 5, [_step_matches_line]
    returns false, since the typed 5 is compared with the i of the
    placeholder; it returns true for the typed line that ends at the open
    quote. *)
Theorem step_matches_line_typed_value :
  GherkinEventListener._step_matches_line
    (Str.split Examples.step_input) (Str.split Examples.typed_five) = false
  ∧ GherkinEventListener._step_matches_line
      (Str.split Examples.step_input) (Str.split Examples.typed_quote) = true.
Proof. split; vm_compute; reflexivity. Qed.

(** C1 as stated fails: the match is refused once a value is typed behind
    the quote. *)
Lemma typed_value_refuses_match :
  GherkinEventListener._step_matches_line
    (Str.split Examples.step_input) (Str.split Examples.typed_five) ≠ true.
Proof. vm_compute. discriminate. Qed.

(** ** Formatting a step as a snippet *)

(** C2, as the code has it: for the step [I have "input" apples] and the
    words of the typed line that ends with an open quote and a 5,
    [_format_step] returns the snippet without the words I have: their
    characters are taken out of the step, the placeholder gets index 1, and
    the result is stripped. *)
Theorem format_step_typed_words :
  GherkinEventListener._format_step Examples.step_input
    (Str.split Examples.typed_five)
  = Examples.snippet_tail.
Proof. vm_compute. reflexivity. Qed.

(** C2 as stated fails: the typed words are not kept in the snippet. *)
Lemma typed_words_not_kept_in_snippet :
  GherkinEventListener._format_step Examples.step_input
    (Str.split Examples.typed_five)
  ≠ Examples.snippet_whole.
Proof. vm_compute. discriminate. Qed.

(** ** The replacement tokens and the detection pattern *)

(** C4, as the code has it: the scan of [format_steps] finds each of
    ["input"], ['input'] and [<input>] as one match, the whole token, and the
    replacement of that match gives the token back; in [[number]] the scan
    finds nothing. *)
Theorem replacement_tokens_scan :
  Re.findall GherkinParser.regex (Str.quoted "input") = [Str.quoted "input"]
  ∧ Re.findall GherkinParser.regex "'input'" = ["'input'"]
  ∧ Re.findall GherkinParser.regex "<input>" = ["<input>"]
  ∧ Re.findall GherkinParser.regex "[number]" = []
  ∧ Forall (λ token, GherkinParser.format_body token = token)
      [Str.quoted "input"; "'input'"; "<input>"; "[number]"].
Proof. repeat split; repeat constructor. Qed.

(** C4 as stated fails: the quoted token is matched by the pattern. *)
Lemma quoted_token_is_matched :
  Re.findall GherkinParser.regex (Str.quoted "input") ≠ [].
Proof. vm_compute. discriminate. Qed.

(** ** The keyword of the current line *)

(** C7: for the current line [And the total is 10], with
    [When I add 2 apples] the line just before it and any lines before that,
    the keyword found is [when]: the [And] of the current line does not end
    the search, and the scan back stops at the first line that starts with
    one of [given], [when], [then]. *)
Theorem find_last_keyword_continuation (earlier : list string) :
  GherkinEventListener.find_last_keyword
    (Str.split (Str.strip "And the total is 10"))
    (earlier ++ ["When I add 2 apples"])
  = "when".
Proof.
  replace (Str.split (Str.strip "And the total is 10"))
    with ["And"; "the"; "total"; "is"; "10"] by (vm_compute; reflexivity).
  unfold GherkinEventListener.find_last_keyword.
  replace (Str.lower "And") with "and" by (vm_compute; reflexivity).
  replace (bool_decide ("and" ∈ GherkinEventListener.keywords)) with false
    by (vm_compute; reflexivity).
  rewrite reverse_snoc.
  cbn [GherkinEventListener.scan_back].
  replace (Str.split_space1 (Str.lstrip "When I add 2 apples"))
    with ["When"; "I add 2 apples"] by (vm_compute; reflexivity).
  replace (Str.lower "When") with "when" by (vm_compute; reflexivity).
  replace (bool_decide ("when" ∈ GherkinEventListener.keywords)) with true
    by (vm_compute; reflexivity).
  reflexivity.
Qed.

(** ** Extracting the steps *)

Section extraction.
Import GherkinParser.

Lemma main_word_cases (w : string) :
  w ∈ main_words → w = "given" ∨ w = "when" ∨ w = "then".
Proof.
  unfold main_words. rewrite !elem_of_cons, elem_of_nil. tauto.
Qed.

Lemma extra_word_cases (w : string) :
  w ∈ extra_words → w = "and" ∨ w = "but".
Proof.
  unfold extra_words. rewrite !elem_of_cons, elem_of_nil. tauto.
Qed.

(** A line that starts with a main word sets [last_main_word] and gives a
    step under it. *)
Lemma get_steps_line_main (k : string) (S : gset step) (line w rest : string) :
  Str.split_max1 line = [w; rest] →
  Str.lower w ∈ main_words →
  get_steps_line (k, S) line
  = (Str.lower w, {[ (Str.lower w, Str.strip rest) ]} ∪ S).
Proof.
  intros Hsplit Hw. unfold get_steps_line. rewrite Hsplit.
  rewrite bool_decide_true by done.
  by destruct (main_word_cases _ Hw) as [-> | [-> | ->]].
Qed.

(** A line that starts with an extra word gives a step under the
    [last_main_word] there is. *)
Lemma get_steps_line_extra (k : string) (S : gset step) (line w rest : string) :
  Str.split_max1 line = [w; rest] →
  Str.lower w ∈ extra_words →
  get_steps_line (k, S) line = (k, {[ (k, Str.strip rest) ]} ∪ S).
Proof.
  intros Hsplit Hw. unfold get_steps_line. rewrite Hsplit.
  rewrite bool_decide_false.
  - by rewrite bool_decide_true by done.
  - intros Hm. destruct (extra_word_cases _ Hw) as [Heq | Heq];
      rewrite Heq in Hm; by destruct (main_word_cases _ Hm) as [? | [? | ?]].
Qed.

(** A line that does not start with a main word leaves [last_main_word]
    as it is. *)
Lemma get_steps_line_keeps_word (k : string) (S : gset step) (line : string) :
  starts_with_main_word line = false →
  (get_steps_line (k, S) line).1 = k.
Proof.
  unfold starts_with_main_word, get_steps_line.
  destruct (Str.split_max1 line) as [|w [|rest ws]]; try done.
  intros ->. by case_bool_decide.
Qed.

(** The steps found so far take no part in the reading of a line. *)
Lemma get_steps_line_union (k : string) (S T : gset step) (line : string) :
  get_steps_line (k, S ∪ T) line
  = ((get_steps_line (k, T) line).1, S ∪ (get_steps_line (k, T) line).2).
Proof.
  unfold get_steps_line.
  destruct (Str.split_max1 line) as [|w [|rest ws]]; try done.
  repeat case_bool_decide; simpl; f_equal; set_solver.
Qed.

Lemma foldl_get_steps_line_union (lines : list string) (k : string) (S T : gset step) :
  foldl get_steps_line (k, S ∪ T) lines
  = ((foldl get_steps_line (k, T) lines).1,
     S ∪ (foldl get_steps_line (k, T) lines).2).
Proof.
  revert k T. induction lines as [|line lines IH]; intros k T; [done|].
  cbn [foldl]. rewrite get_steps_line_union.
  destruct (get_steps_line (k, T) line) as [k' T']. apply IH.
Qed.

(** The steps of a file are added to those found before; they do not
    depend on them. *)
Lemma get_steps_file_union (S : gset step) (content : string) :
  get_steps_file S content = S ∪ get_steps_file ∅ content.
Proof.
  unfold get_steps_file.
  rewrite <- (right_id_L ∅ (∪) S) at 1.
  by rewrite foldl_get_steps_line_union.
Qed.

Lemma foldl_get_steps_file (S : gset step) (files : list string) :
  foldl get_steps_file S files = S ∪ ⋃ (get_steps_file ∅ <$> files).
Proof.
  revert S. induction files as [|f files IH]; intros S; simpl.
  - set_solver.
  - rewrite IH, (get_steps_file_union S). set_solver.
Qed.

Lemma get_steps_one_file (content : string) :
  get_steps (Some [content])
  = (foldl get_steps_line (EmptyString, ∅) (Str.readlines content)).2.
Proof. reflexivity. Qed.

Lemma format_steps_some (S : gset step) :
  format_steps (Some S) = set_map format_step S.
Proof. reflexivity. Qed.

(** Steps once found stay. *)
Lemma foldl_get_steps_line_mono (lines : list string) (k : string) (S : gset step) (x : step) :
  x ∈ S → x ∈ (foldl get_steps_line (k, S) lines).2.
Proof.
  intros Hx. rewrite <- (right_id_L ∅ (∪) S).
  rewrite foldl_get_steps_line_union. set_solver.
Qed.

Lemma foldl_get_steps_line_keeps_word (lines : list string) (k : string) (S : gset step) :
  Forall (λ l, starts_with_main_word l = false) lines →
  (foldl get_steps_line (k, S) lines).1 = k.
Proof.
  intros Hlines. revert S.
  induction Hlines as [|line lines Hline _ IH]; intros S; [done|].
  cbn [foldl]. pose proof (get_steps_line_keeps_word k S line Hline) as Hk.
  destruct (get_steps_line (k, S) line) as [k' S']. simpl in Hk.
  subst k'. apply IH.
Qed.

End extraction.

(** C8: the steps of a list of files are the union of the steps of each
    file taken alone: [last_main_word] starts from the empty text for every
    file, so no keyword passes from one file to the next. *)
Theorem get_steps_union_of_files (files : list string) :
  GherkinParser.get_steps (Some files)
  = ⋃ ((λ f, GherkinParser.get_steps (Some [f])) <$> files).
Proof.
  unfold GherkinParser.get_steps. simpl.
  rewrite foldl_get_steps_file. set_solver.
Qed.

(** C10: when a line of a file has for first word, lower-cased, [and] or
    [but], has a remainder, and no line before it in the file starts with
    [given], [when] or [then], the steps of the file hold the remainder of
    the line, stripped, under the empty keyword. *)
Theorem get_steps_extra_word_first
    (content : string) (before after : list string) (line w rest : string) :
  Str.readlines content = before ++ line :: after →
  Forall (λ l, GherkinParser.starts_with_main_word l = false) before →
  Str.split_max1 line = [w; rest] →
  Str.lower w ∈ GherkinParser.extra_words →
  (EmptyString, Str.strip rest) ∈ GherkinParser.get_steps (Some [content]).
Proof.
  intros Hlines Hbefore Hsplit Hw.
  rewrite get_steps_one_file, Hlines.
  rewrite foldl_app. cbn [foldl].
  pose proof (foldl_get_steps_line_keeps_word before EmptyString ∅ Hbefore) as Hk.
  destruct (foldl GherkinParser.get_steps_line (EmptyString, ∅) before)
    as [k S]. simpl in Hk. subst k.
  rewrite (get_steps_line_extra _ _ _ _ _ Hsplit Hw).
  apply foldl_get_steps_line_mono. set_solver.
Qed.

Lemma get_steps_extra_word_first_witness :
  (EmptyString, "the basket is empty")
  ∈ GherkinParser.get_steps
      (Some ["Feature: apples
  But the basket is empty
  Given I have 2 apples
"]).
Proof.
  apply (get_steps_extra_word_first _
           ["Feature: apples
"] ["  Given I have 2 apples
"] "  But the basket is empty
" "But" "the basket is empty
").
  - vm_compute. reflexivity.
  - repeat constructor.
  - vm_compute. reflexivity.
  - vm_compute. repeat constructor.
Defined.

(** C6: for a file whose text is the one line [Given I have "5" apples],
    with or without its line end, [get_steps] gives the one step [given]
    with the body [I have "5" apples], and [format_steps] of that gives the
    one step [given] with the body [I have "input" apples]. *)
Theorem get_steps_then_format_steps_example :
  let line := "Given " +:+ Examples.step_five in
  GherkinParser.get_steps (Some [line]) = {[ ("given", Examples.step_five) ]}
  ∧ GherkinParser.get_steps (Some [line +:+ String "010" EmptyString])
    = {[ ("given", Examples.step_five) ]}
  ∧ GherkinParser.format_steps (Some {[ ("given", Examples.step_five) ]})
    = {[ ("given", Examples.step_input) ]}.
Proof.
  intros line.
  assert (∀ nl, nl = EmptyString ∨ nl = String "010" EmptyString →
            GherkinParser.get_steps (Some [line +:+ nl])
            = {[ ("given", Examples.step_five) ]}) as Hget.
  { intros nl Hnl. rewrite get_steps_one_file.
    replace (Str.readlines (line +:+ nl)) with [line +:+ nl]
      by (destruct Hnl as [-> | ->]; vm_compute; reflexivity).
    cbn [foldl].
    rewrite (get_steps_line_main _ _ _ "Given" (Examples.step_five +:+ nl)).
    - replace (Str.strip (Examples.step_five +:+ nl)) with Examples.step_five
        by (destruct Hnl as [-> | ->]; vm_compute; reflexivity).
      replace (Str.lower "Given") with "given" by (vm_compute; reflexivity).
      cbn [snd]. apply (right_id_L ∅ (∪)).
    - destruct Hnl as [-> | ->]; vm_compute; reflexivity.
    - vm_compute. repeat constructor. }
  split; [|split].
  - rewrite <- (Hget EmptyString) by (by left). by rewrite app_empty_r.
  - apply Hget. by right.
  - rewrite format_steps_some, set_map_singleton_L. unfold GherkinParser.format_step. cbn [fst snd].
    replace (GherkinParser.format_body Examples.step_five)
      with Examples.step_input by (vm_compute; reflexivity).
    reflexivity.
Qed.

(** ** Opening and closing the files *)

Section files.
Import GherkinParser.

Lemma close_head (name : string) (open_files : list string) :
  close name (name :: open_files) = open_files.
Proof. simpl. by rewrite bool_decide_true. Qed.

(** The files open after the loop are those open before it, or those and
    the one file whose [readlines] raised. *)
Lemma get_steps_from_open_files (fs : filesystem) (files : list file)
    (steps : gset step) (open_files : list string) :
  match get_steps_from fs files steps open_files with
  | (Returned _, left_open) => left_open = open_files
  | (Raised, left_open) =>
      left_open = open_files
      ∨ ∃ name, left_open = name :: open_files ∧ fs name = Some None
  end.
Proof.
  revert steps. induction files as [|[lines | name] files IH]; intros steps.
  - done.
  - cbn [get_steps_from]. destruct lines as [content|]; [apply IH | by left].
  - cbn [get_steps_from]. destruct (fs name) as [[content|]|] eqn:Hname.
    + rewrite close_head. apply IH.
    + right. by exists name.
    + by left.
Qed.

(** When every file is read without an exception, [get_steps] returns the
    steps of the texts read, and no file it opened is open. *)
Lemma get_steps_from_read (fs : filesystem) (files : list file)
    (contents : list string) (steps : gset step) (open_files : list string) :
  Forall2 (λ f content, read fs f = Some content) files contents →
  get_steps_from fs files steps open_files
  = (Returned (foldl get_steps_file steps contents), open_files).
Proof.
  intros Hread. revert steps.
  induction Hread as [|f content files contents Hf _ IH]; intros steps; [done|].
  cbn [get_steps_from foldl]. destruct f as [lines | name]; simpl in Hf.
  - subst lines. apply IH.
  - destruct (fs name) as [lines|]; [|done]. simpl in Hf. subst lines.
    rewrite close_head. apply IH.
Qed.

(** When the files before a named file are read and the [readlines] of
    that file raises, the loop ends there by the exception: the file has
    been opened, no [close] is reached for it, and the files behind it are
    not opened. *)
Lemma get_steps_from_readlines_raises (fs : filesystem)
    (before after : list file) (name : string) (contents : list string)
    (steps : gset step) (open_files : list string) :
  Forall2 (λ f content, read fs f = Some content) before contents →
  fs name = Some None →
  get_steps_from fs (before ++ FileName name :: after) steps open_files
  = (Raised, name :: open_files).
Proof.
  intros Hread Hname. revert steps.
  induction Hread as [|f content files contents Hf _ IH]; intros steps.
  - cbn [app get_steps_from]. by rewrite Hname.
  - cbn [app get_steps_from]. destruct f as [lines | name']; simpl in Hf.
    + subst lines. apply IH.
    + destruct (fs name') as [lines|]; [|done]. simpl in Hf. subst lines.
      rewrite close_head. apply IH.
Qed.

(** When the files before a named file are read and the [open] of that
    file raises, the loop ends there with the files that were open before
    it: every file opened on the way has been closed. *)
Lemma get_steps_from_open_raises (fs : filesystem)
    (before after : list file) (name : string) (contents : list string)
    (steps : gset step) (open_files : list string) :
  Forall2 (λ f content, read fs f = Some content) before contents →
  fs name = None →
  get_steps_from fs (before ++ FileName name :: after) steps open_files
  = (Raised, open_files).
Proof.
  intros Hread Hname. revert steps.
  induction Hread as [|f content files contents Hf _ IH]; intros steps.
  - cbn [app get_steps_from]. by rewrite Hname.
  - cbn [app get_steps_from]. destruct f as [lines | name']; simpl in Hf.
    + subst lines. apply IH.
    + destruct (fs name') as [lines|]; [|done]. simpl in Hf. subst lines.
      rewrite close_head. apply IH.
Qed.

(** X6: When every file, object or name, is read without an exception,
    [get_steps] returns the steps of the texts read and has closed every
    file it opened. *)
Lemma get_steps_io_read (fs : filesystem) (files : list file)
    (contents : list string) :
  Forall2 (λ f content, read fs f = Some content) files contents →
  get_steps_io fs (Some files) = (Returned (get_steps (Some contents)), []).
Proof. apply get_steps_from_read. Qed.

End files.

(** C5, as the code has it: when [get_steps] returns, every file it opened
    is closed; when it raises, at most one file it opened is open.  There is
    no release when an exception passes: when the files before a named file
    are read and the [readlines] of that file raises, [get_steps] raises and
    that file, and no other, is left open: no [close] is reached for it, and
    the files opened before it have been closed.  When it is the [open] of
    the file that raises, no file is left open. *)
Theorem get_steps_io_open_files
    (fs : GherkinParser.filesystem) (files : option (list GherkinParser.file)) :
  match GherkinParser.get_steps_io fs files with
  | (GherkinParser.Returned _, left_open) => left_open = []
  | (GherkinParser.Raised, left_open) =>
      left_open = [] ∨ ∃ name, left_open = [name] ∧ fs name = Some None
  end
  ∧ (∀ before name after contents,
       files = Some (before ++ GherkinParser.FileName name :: after) →
       Forall2 (λ f content, GherkinParser.read fs f = Some content)
         before contents →
       fs name = Some None →
       GherkinParser.get_steps_io fs files = (GherkinParser.Raised, [name]))
  ∧ (∀ before name after contents,
       files = Some (before ++ GherkinParser.FileName name :: after) →
       Forall2 (λ f content, GherkinParser.read fs f = Some content)
         before contents →
       fs name = None →
       GherkinParser.get_steps_io fs files = (GherkinParser.Raised, [])).
Proof.
  split; [apply get_steps_from_open_files|]. split.
  - intros before name after contents -> Hread Hname.
    by apply (get_steps_from_readlines_raises fs before after name contents).
  - intros before name after contents -> Hread Hname.
    by apply (get_steps_from_open_raises fs before after name contents).
Qed.

Lemma get_steps_io_open_files_witness :
  GherkinParser.get_steps_io
    (λ name, if String.eqb name "apples.feature"
             then Some (Some "Given I have 2 apples") else Some None)
    (Some [GherkinParser.FileName "apples.feature";
           GherkinParser.FileName "pears.feature";
           GherkinParser.FileName "plums.feature"])
  = (GherkinParser.Raised, ["pears.feature"]).
Proof.
  apply (proj1 (proj2 (get_steps_io_open_files _ _))
           [GherkinParser.FileName "apples.feature"] "pears.feature"
           [GherkinParser.FileName "plums.feature"] ["Given I have 2 apples"]).
  - reflexivity.
  - repeat constructor.
  - reflexivity.
Defined.

(** C5 as stated fails: a file that opens and whose [readlines] raises is
    left open. *)
Lemma get_steps_io_leaves_file_open :
  GherkinParser.get_steps_io (λ _, Some None)
    (Some [GherkinParser.FileName "apples.feature"])
  = (GherkinParser.Raised, ["apples.feature"]).
Proof. reflexivity. Qed.

(** ** Building the completions *)

Section completions.
Import GherkinEventListener.

Lemma fill_step_one_word (last_keyword w step : string)
    (completions : gmap string (string * string)) (st : string * string) :
  completions !! step
    = Some (step +:+ Str.tab +:+ last_keyword, _format_step step [])
  ∨ st = (last_keyword, step) →
  fill_step last_keyword [w] completions st !! step
  = Some (step +:+ Str.tab +:+ last_keyword, _format_step step []).
Proof.
  destruct st as [step_type s]. unfold fill_step. cbn [length Nat.eqb].
  intros Hstep. case_bool_decide as Htype.
  - subst step_type. destruct (decide (s = step)) as [-> | Hne].
    + by rewrite lookup_insert_eq.
    + rewrite lookup_insert_ne by done.
      destruct Hstep as [Hstep | Hstep]; [done | congruence].
  - destruct Hstep as [Hstep | Hstep]; [done | congruence].
Qed.

Lemma build_completions_one_word_from (steps : list (string * string))
    (last_keyword w step : string)
    (completions : gmap string (string * string)) :
  completions !! step
    = Some (step +:+ Str.tab +:+ last_keyword, _format_step step [])
  ∨ (last_keyword, step) ∈ steps →
  build_completions steps last_keyword [w] completions !! step
  = Some (step +:+ Str.tab +:+ last_keyword, _format_step step []).
Proof.
  unfold build_completions. revert completions.
  induction steps as [|st steps IH]; intros completions Hstep.
  - destruct Hstep as [Hstep | Hstep]; [done | by apply elem_of_nil in Hstep].
  - cbn [foldl]. apply IH.
    destruct Hstep as [Hstep | [Hstep | Hstep]%elem_of_cons].
    + left. apply fill_step_one_word. by left.
    + left. apply fill_step_one_word. by right.
    + by right.
Qed.

End completions.

(** *** A typed line of one word

    [_fill_completions] returns before the loop over [steps] when the text
    of the line, stripped, has no space in it; a line of one word is such a
    line, so the loop is reached with two words or more. *)

Section one_word.
Import GherkinEventListener.

Lemma split_lstrip (s : string) : Str.split (Str.lstrip s) = Str.split s.
Proof.
  induction s as [|c s IH]; [done|]. cbn [Str.lstrip Str.split].
  destruct (Str.isspace c) eqn:Hc; [done|]. cbn [Str.split]. by rewrite Hc.
Qed.

Lemma starts_word_rstrip (s : string) :
  Str.starts_word (Str.rstrip s) = Str.starts_word s.
Proof.
  destruct s as [|c s]; [done|]. cbn [Str.rstrip Str.starts_word].
  destruct (Str.isspace c) eqn:Hc.
  - destruct (Str.is_empty (Str.rstrip s)); [done|].
    cbn [andb Str.starts_word]. by rewrite Hc.
  - rewrite andb_false_r. cbn [Str.starts_word]. by rewrite Hc.
Qed.

Lemma split_rstrip (s : string) : Str.split (Str.rstrip s) = Str.split s.
Proof.
  induction s as [|c s IH]; [done|]. cbn [Str.rstrip Str.split].
  destruct (Str.isspace c) eqn:Hc.
  - destruct (Str.rstrip s) as [|c' r] eqn:Hr.
    + by rewrite <- IH.
    + cbn [Str.is_empty andb]. rewrite <- IH. cbn [Str.split]. by rewrite Hc.
  - rewrite andb_false_r. change (Str.split (String c (Str.rstrip s)))
      with (if Str.isspace c then Str.split (Str.rstrip s)
            else if Str.starts_word (Str.rstrip s)
                 then match Str.split (Str.rstrip s) with
                      | w :: ws => String c w :: ws
                      | [] => [String c EmptyString]
                      end
                 else String c EmptyString :: Str.split (Str.rstrip s)).
    by rewrite Hc, starts_word_rstrip, IH.
Qed.

Lemma split_strip (s : string) : Str.split (Str.strip s) = Str.split s.
Proof. unfold Str.strip. by rewrite split_rstrip, split_lstrip. Qed.

Lemma split_nil_rstrip (s : string) :
  Str.split s = [] → Str.rstrip s = EmptyString.
Proof.
  induction s as [|c s IH]; [done|]. cbn [Str.split Str.rstrip].
  destruct (Str.isspace c).
  - intros Hs. by rewrite (IH Hs).
  - destruct (Str.starts_word s); [|done]. by destruct (Str.split s).
Qed.

Lemma starts_word_lstrip (s : string) :
  Str.starts_word s = true → Str.lstrip s = s.
Proof.
  destruct s as [|c s]; [done|]. cbn [Str.starts_word Str.lstrip].
  by destruct (Str.isspace c).
Qed.

Lemma starts_word_split (s : string) :
  Str.starts_word s = true → Str.split s ≠ [].
Proof.
  destruct s as [|c s]; [done|]. cbn [Str.starts_word Str.split].
  destruct (Str.isspace c); [done|]. intros _.
  destruct (Str.starts_word s); [|done]. by destruct (Str.split s).
Qed.

(** The one word of a text is the text stripped, and has no space in it. *)
Lemma split_one_word (s w : string) :
  Str.split s = [w] → Str.strip s = w ∧ Str.contains " " w = false.
Proof.
  revert w. induction s as [|c s IH]; intros w; [done|].
  unfold Str.strip. cbn [Str.split Str.lstrip].
  destruct (Str.isspace c) eqn:Hc; [apply IH|].
  cbn [Str.rstrip]. rewrite Hc, andb_false_r.
  assert (Ascii.eqb c " " = false) as Hsp.
  { destruct (Ascii.eqb_spec c " ") as [-> | ?]; [|done]. by vm_compute in Hc. }
  destruct (Str.starts_word s) eqn:Hs.
  - destruct (Str.split s) as [|w' [|w'' ws]] eqn:Hsplit; try done.
    { by apply starts_word_split in Hs. }
    intros [= <-]. destruct (IH w' eq_refl) as [Hstrip Hw'].
    unfold Str.strip in Hstrip. rewrite (starts_word_lstrip s Hs) in Hstrip.
    rewrite Hstrip. cbn [Str.contains]. by rewrite Hsp.
  - destruct (Str.split s) eqn:Hsplit; [|done]. intros [= <-].
    rewrite (split_nil_rstrip s Hsplit). cbn [Str.contains].
    by rewrite Hsp.
Qed.

(** X22: With one word on the line, [_fill_completions] leaves [completions] as
    it is. *)
Lemma fill_completions_one_word (steps : list (string * string))
    (completions : gmap string (string * string))
    (current_line : string) (preceding : list string) (w : string) :
  Str.split (Str.strip current_line) = [w] →
  _fill_completions steps completions current_line preceding = (completions, []).
Proof.
  rewrite split_strip. intros [Hstrip Hw]%split_one_word.
  unfold _fill_completions. by rewrite Hstrip, Hw.
Qed.

End one_word.

(** C9, as the code breaks it: for a typed line that holds the keyword
    alone, with or without a space behind it, [_fill_completions] returns
    before the loop over the catalogue, whatever the catalogue holds: the
    line is stripped before the test for a space, so the completions stay as
    they were and no step of the keyword is put in them, against the comment
    of the branch for one word. *)
Theorem fill_completions_keyword_only_line
    (steps : list (string * string))
    (completions : gmap string (string * string)) (preceding : list string) :
  GherkinEventListener._fill_completions steps completions "Given" preceding
  = (completions, [])
  ∧ GherkinEventListener._fill_completions steps completions "Given " preceding
    = (completions, [])
  ∧ (GherkinEventListener._fill_completions
       [("given", Examples.step_input)] ∅ "Given " preceding).1
    !! Examples.step_input
    = None.
Proof. repeat split. Qed.

(** The loop alone, were it reached with a line of one word: the
    completions built would hold, for every step of the catalogue under the
    keyword, the suggestion of that step, whatever [_step_matches_line] says
    of it, with no character taken out of the snippet. *)
Theorem build_completions_keyword_only
    (steps : list (string * string)) (last_keyword w step : string)
    (completions : gmap string (string * string)) :
  (last_keyword, step) ∈ steps →
  GherkinEventListener.build_completions steps last_keyword [w] completions
    !! step
  = Some (step +:+ Str.tab +:+ last_keyword,
          GherkinEventListener._format_step step [])
  ∧ GherkinEventListener._format_step step []
    = Str.strip
        (foldl GherkinEventListener.snippet_value (step, 1%nat)
           (Re.findall GherkinEventListener.regex step)).1.
Proof.
  intros Hstep. split; [|reflexivity].
  apply build_completions_one_word_from. by right.
Qed.

Lemma build_completions_keyword_only_witness :
  GherkinEventListener.build_completions
    [("when", "I eat"); ("given", Examples.step_input)] "given" ["Given"] ∅
    !! Examples.step_input
  = Some (Examples.step_input +:+ Str.tab +:+ "given", Examples.snippet_whole).
Proof.
  apply (build_completions_keyword_only
           [("when", "I eat"); ("given", Examples.step_input)]
           "given" "Given" Examples.step_input ∅).
  repeat constructor.
Defined.

(** ** Formatting the steps twice *)

Section idempotence.
Import GherkinParser.




(** *** Bodies with numbers only *)

Lemma findall_from_drop (p : Re.pattern) (k : nat) (s : string) :
  Re.findall_from p k s = Re.findall p (Str.drop k s).
Proof.
  revert k. induction s as [|a s IH]; intros [|k]; try done. apply IH.
Qed.

Lemma findall_cons (p : Re.pattern) (a : ascii) (s : string) :
  Re.findall p (String a s)
  = match p (String a s) with
    | Some m => m :: Re.findall p (Str.drop (String.length m - 1) s)
    | None => Re.findall p s
    end.
Proof.
  unfold Re.findall at 1. cbn [Re.findall_from].
  destruct (p (String a s)) as [m|]; [|done]. by rewrite findall_from_drop.
Qed.

Lemma all_app (f : ascii → bool) (s t : string) :
  Str.all f (s +:+ t) = Str.all f s && Str.all f t.
Proof.
  induction s as [|c s IH]; [done|].
  rewrite app_cons. cbn [Str.all]. by rewrite IH, andb_assoc.
Qed.








Lemma opens_value_false (a : ascii) :
  opens_value a = false →
  Ascii.eqb a Str.dquote = false ∧ Ascii.eqb a "'" = false
  ∧ Ascii.eqb a "<" = false.
Proof.
  unfold opens_value. intros [[H1 H2]%orb_false_elim H3]%orb_false_elim. done.
Qed.

Lemma delimited_other (open close a : ascii) (s : string) :
  Ascii.eqb a open = false → Re.delimited open close (String a s) = None.
Proof. intros Ha. unfold Re.delimited. destruct s; [done|]. by rewrite Ha. Qed.

(** Behind a character that opens no value the scan is that of the two
    numeric alternatives. *)
Lemma regex_numeric (a : ascii) (s : string) :
  opens_value a = false →
  regex (String a s)
  = Re.alt Re.number Re.dot_number (String a s).
Proof.
  intros (Hd & Hs & Hl)%opens_value_false.
  unfold regex. unfold Re.alt at 1 2 3. by rewrite !delimited_other.
Qed.



Lemma replace1_cons (old new : string) (c : ascii) (s : string) :
  Str.replace1 old new (String c s)
  = if Str.startswith old (String c s)
    then new +:+ Str.drop (String.length old) (String c s)
    else String c (Str.replace1 old new s).
Proof. reflexivity. Qed.






End idempotence.




(** * Further properties of the parser *)

(** ** What [get_steps] puts in the steps *)

Section steps_found.
Import GherkinParser.

Lemma lstrip_starts_word (s : string) :
  Str.is_empty (Str.lstrip s) = false → Str.starts_word (Str.lstrip s) = true.
Proof.
  induction s as [|c s IH]; [done|]. cbn [Str.lstrip].
  destruct (Str.isspace c) eqn:Hc; [done|]. intros _.
  cbn [Str.starts_word]. by rewrite Hc.
Qed.

(** The remainder [split(maxsplit=1)] gives starts with a character that is
    not white space. *)
Lemma split_max1_rest (line w rest : string) (more : list string) :
  Str.split_max1 line = w :: rest :: more → Str.starts_word rest = true.
Proof.
  unfold Str.split_max1. destruct (Str.is_empty (Str.lstrip line)); [done|].
  destruct (Str.span_word (Str.lstrip line)) as [w' r].
  destruct (Str.is_empty (Str.lstrip r)) eqn:Hr; [done|].
  intros [= _ <- _]. by apply lstrip_starts_word.
Qed.

Lemma rstrip_rstrip (s : string) : Str.rstrip (Str.rstrip s) = Str.rstrip s.
Proof.
  induction s as [|c s IH]; [done|]. cbn [Str.rstrip].
  destruct (Str.is_empty (Str.rstrip s) && Str.isspace c) eqn:Hc; [done|].
  cbn [Str.rstrip]. by rewrite IH, Hc.
Qed.

(** A text that starts with a word is stripped to a text that is not empty
    and that stripping leaves as it is. *)
Lemma strip_starts_word (s : string) :
  Str.starts_word s = true →
  Str.strip s ≠ EmptyString ∧ Str.strip (Str.strip s) = Str.strip s.
Proof.
  intros Hs. unfold Str.strip. rewrite (starts_word_lstrip s Hs).
  pose proof (starts_word_rstrip s) as Hr. rewrite Hs in Hr.
  rewrite (starts_word_lstrip _ Hr), rstrip_rstrip. split; [|done].
  by destruct (Str.rstrip s).
Qed.

Lemma get_steps_line_well_formed (st : string * gset step) (line : string) :
  well_formed_state st → well_formed_state (get_steps_line st line).
Proof.
  destruct st as [k S]. intros [Hk HS]. unfold get_steps_line.
  destruct (Str.split_max1 line) as [|w [|rest more]] eqn:Hsplit;
    [by split..|].
  destruct (strip_starts_word rest (split_max1_rest _ _ _ _ Hsplit))
    as [Hne Hstrip].
  case_bool_decide as Hmain; [|case_bool_decide as Hextra; [|by split]].
  - assert (Str.lower (Str.lower w) = Str.lower w) as ->.
    { by destruct (main_word_cases _ Hmain) as [-> | [-> | ->]]. }
    split; [by right|]. cbn [snd].
    intros s [->%elem_of_singleton | Hs]%elem_of_union; [|by apply HS].
    by repeat split; [right|..].
  - split; [done|]. cbn [snd].
    intros s [->%elem_of_singleton | Hs]%elem_of_union; [|by apply HS].
    by repeat split.
Qed.

Lemma foldl_get_steps_line_well_formed (lines : list string)
    (st : string * gset step) :
  well_formed_state st → well_formed_state (foldl get_steps_line st lines).
Proof.
  revert st. induction lines as [|line lines IH]; intros st Hst; [done|].
  cbn [foldl]. by apply IH, get_steps_line_well_formed.
Qed.

Lemma get_steps_well_formed (files : list string) (s : step) :
  s ∈ get_steps (Some files) → well_formed s.
Proof.
  unfold get_steps. cbn [default]. change (id files) with files.
  rewrite foldl_get_steps_file, elem_of_union, elem_of_union_list.
  intros [[]%elem_of_empty | (S & (f & -> & Hf)%list_elem_of_fmap & Hs)].
  revert Hs. unfold get_steps_file.
  apply (foldl_get_steps_line_well_formed (Str.readlines f) (EmptyString, ∅)).
  split; [by left|]. by intros s' []%elem_of_empty.
Qed.

(** The steps of a list of files, file by file and line by line. *)
Lemma elem_of_get_steps (files : list string) (s : step) :
  s ∈ get_steps (Some files)
  ↔ ∃ f, f ∈ files ∧ s ∈ get_steps (Some [f]).
Proof.
  unfold get_steps at 1. cbn [default]. change (id files) with files.
  rewrite foldl_get_steps_file, elem_of_union, elem_of_union_list. split.
  - intros [[]%elem_of_empty | (S & (f & -> & Hf)%list_elem_of_fmap & Hs)].
    by exists f.
  - intros (f & Hf & Hs). right. exists (get_steps_file ∅ f).
    split; [|done]. apply list_elem_of_fmap. by exists f.
Qed.

(** A line, the lines before it and the word they leave. *)
Lemma get_steps_file_line (content : string) (before after : list string)
    (line : string) (s : step) :
  Str.readlines content = before ++ line :: after →
  s ∈ (get_steps_line
         (foldl get_steps_line (EmptyString, ∅) before) line).2 →
  s ∈ get_steps (Some [content]).
Proof.
  intros Hlines Hs. rewrite get_steps_one_file, Hlines, foldl_app.
  cbn [foldl].
  destruct (get_steps_line _ line) as [k S]. by apply foldl_get_steps_line_mono.
Qed.

End steps_found.

(** X1: The keyword of every step [get_steps] finds is the empty text or one of
    [given], [when], [then], in lower case. *)
Theorem get_steps_keywords (files : list string) (keyword body : string) :
  (keyword, body) ∈ GherkinParser.get_steps (Some files) →
  keyword = EmptyString ∨ keyword ∈ GherkinParser.main_words.
Proof. intros Hs. by destruct (get_steps_well_formed _ _ Hs) as [? _]. Qed.

Lemma get_steps_keywords_witness :
  "given" = EmptyString ∨ "given" ∈ GherkinParser.main_words.
Proof.
  apply (get_steps_keywords ["GIVEN I have 2 apples"] "given" "I have 2 apples").
  vm_compute. reflexivity.
Defined.

(** X2: The body of every step [get_steps] finds is not empty and has no white
    space at its ends. *)
Theorem get_steps_bodies (files : list string) (keyword body : string) :
  (keyword, body) ∈ GherkinParser.get_steps (Some files) →
  body ≠ EmptyString ∧ Str.strip body = body.
Proof. intros Hs. by destruct (get_steps_well_formed _ _ Hs) as [_ ?]. Qed.

Lemma get_steps_bodies_witness :
  "I have 2 apples" ≠ EmptyString
  ∧ Str.strip "I have 2 apples" = "I have 2 apples".
Proof.
  apply (get_steps_bodies ["  When   I have 2 apples   "] "when").
  vm_compute. reflexivity.
Defined.

(** X3: A line of a file whose first word, lower-cased, is [given], [when] or
    [then], and which has a remainder, gives the step of that word and of the
    remainder stripped, wherever the line and the file stand. *)
Theorem get_steps_main_word_line (files : list string) (content : string)
    (before after : list string) (line w rest : string) :
  content ∈ files →
  Str.readlines content = before ++ line :: after →
  Str.split_max1 line = [w; rest] →
  Str.lower w ∈ GherkinParser.main_words →
  (Str.lower w, Str.strip rest) ∈ GherkinParser.get_steps (Some files).
Proof.
  intros Hfile Hlines Hsplit Hw. apply elem_of_get_steps.
  exists content. split; [done|].
  apply (get_steps_file_line content before after line _ Hlines).
  destruct (foldl GherkinParser.get_steps_line _ before) as [k S].
  rewrite (get_steps_line_main _ _ _ _ _ Hsplit Hw). set_solver.
Qed.

Lemma get_steps_main_word_line_witness :
  ("then", "the basket is full")
  ∈ GherkinParser.get_steps
      (Some ["Feature: pears"; "Scenario: apples
  THEN   the basket is full  
  And I go home"]).
Proof.
  apply (get_steps_main_word_line _ "Scenario: apples
  THEN   the basket is full  
  And I go home" ["Scenario: apples
"] ["  And I go home"] "  THEN   the basket is full  
" "THEN" "the basket is full  
").
  - repeat constructor.
  - vm_compute. reflexivity.
  - vm_compute. reflexivity.
  - vm_compute. repeat constructor.
Defined.

(** X4: A line that starts with [and] or [but] gives a step under the word of
    the nearest line before it that starts with [given], [when] or [then]
    and has a remainder, when no line between the two starts with one of
    these three words. *)
Theorem get_steps_extra_word_inherits (files : list string) (content : string)
    (before between after : list string) (main extra w1 r1 w2 r2 : string) :
  content ∈ files →
  Str.readlines content = before ++ main :: between ++ extra :: after →
  Str.split_max1 main = [w1; r1] →
  Str.lower w1 ∈ GherkinParser.main_words →
  Forall (λ l, GherkinParser.starts_with_main_word l = false) between →
  Str.split_max1 extra = [w2; r2] →
  Str.lower w2 ∈ GherkinParser.extra_words →
  (Str.lower w1, Str.strip r2) ∈ GherkinParser.get_steps (Some files).
Proof.
  intros Hfile Hlines Hmain Hw1 Hbetween Hextra Hw2. apply elem_of_get_steps.
  exists content. split; [done|].
  apply (get_steps_file_line content (before ++ main :: between) after extra).
  { by rewrite <- app_assoc. }
  rewrite foldl_app. cbn [foldl].
  destruct (foldl GherkinParser.get_steps_line _ before) as [k S].
  rewrite (get_steps_line_main _ _ _ _ _ Hmain Hw1).
  pose proof (foldl_get_steps_line_keeps_word between (Str.lower w1)
                ({[(Str.lower w1, Str.strip r1)]} ∪ S) Hbetween) as Hk.
  destruct (foldl GherkinParser.get_steps_line _ between) as [k' S'].
  cbn [fst] in Hk. subst k'.
  rewrite (get_steps_line_extra _ _ _ _ _ Hextra Hw2). set_solver.
Qed.

Lemma get_steps_extra_word_inherits_witness :
  ("when", "I eat one")
  ∈ GherkinParser.get_steps
      (Some ["Given I have 2 apples
When I wait
  | a table row |
But I eat one
Then I have 1 apple"]).
Proof.
  apply (get_steps_extra_word_inherits _ "Given I have 2 apples
When I wait
  | a table row |
But I eat one
Then I have 1 apple" ["Given I have 2 apples
"] ["  | a table row |
"] ["Then I have 1 apple"] "When I wait
" "But I eat one
" "When" "I wait
" "But" "I eat one
").
  - repeat constructor.
  - vm_compute. reflexivity.
  - vm_compute. reflexivity.
  - vm_compute. repeat constructor.
  - repeat constructor.
  - vm_compute. reflexivity.
  - vm_compute. repeat constructor.
Defined.

(** X5: The steps found depend on which files are given, not on their order nor
    on how many times a file is given. *)
Theorem get_steps_same_files (files1 files2 : list string) :
  (∀ f, f ∈ files1 ↔ f ∈ files2) →
  GherkinParser.get_steps (Some files1) = GherkinParser.get_steps (Some files2).
Proof.
  intros Hfiles. apply set_eq. intros s. rewrite !elem_of_get_steps.
  split; intros (f & Hf & Hs); exists f; split; try done; by apply Hfiles.
Qed.

Lemma get_steps_same_files_witness :
  GherkinParser.get_steps (Some ["Given a"; "When b c"; "Given a"])
  = GherkinParser.get_steps (Some ["When b c"; "Given a"]).
Proof.
  apply get_steps_same_files. intros f.
  rewrite !elem_of_cons, !elem_of_nil. tauto.
Defined.

Lemma get_steps_io_read_witness :
  GherkinParser.get_steps_io (λ _, Some (Some "When I add 2 apples"))
    (Some [GherkinParser.FileName "a.feature";
           GherkinParser.FileObject (Some "And I wait 1 hour")])
  = (GherkinParser.Returned
       (GherkinParser.get_steps
          (Some ["When I add 2 apples"; "And I wait 1 hour"])), []).
Proof. apply get_steps_io_read. repeat constructor. Defined.

(** ** Finding the feature files *)

Section discovery.
Import GherkinParser.
Context (glob : string → list string).

Lemma endswith_app (suffix s : string) :
  Str.endswith suffix (s +:+ suffix) = true.
Proof.
  unfold Str.endswith. rewrite length_app'.
  replace (String.length s + String.length suffix - String.length suffix)%nat
    with (String.length s) by lia.
  rewrite drop_app, String.eqb_refl, andb_true_r. apply Nat.leb_le. lia.
Qed.

Lemma add_feature_files_slash (files : list string) (path : string) :
  Str.endswith "/" path = false →
  add_feature_files glob files (path +:+ "/") = add_feature_files glob files path.
Proof.
  intros Hpath. unfold add_feature_files. by rewrite endswith_app, Hpath.
Qed.

Lemma foldl_add_feature_files (files : list string) (directories : list string) :
  foldl (add_feature_files glob) files directories
  = files ++ foldl (add_feature_files glob) [] directories.
Proof.
  revert files. induction directories as [|d ds IH]; intros files.
  - by rewrite app_nil_r.
  - cbn [foldl]. rewrite IH, (IH (add_feature_files glob [] d)).
    unfold add_feature_files. by rewrite app_assoc.
Qed.

Lemma get_feature_files_app (ds1 ds2 : list string) :
  get_feature_files glob (Some (ds1 ++ ds2))
  = get_feature_files glob (Some ds1) ++ get_feature_files glob (Some ds2).
Proof.
  unfold get_feature_files. cbn [default].
  change (id (ds1 ++ ds2)) with (ds1 ++ ds2).
  by rewrite foldl_app, foldl_add_feature_files.
Qed.

Lemma get_feature_files_cons (d : string) (ds : list string) :
  get_feature_files glob (Some (d :: ds))
  = add_feature_files glob [] d ++ get_feature_files glob (Some ds).
Proof.
  unfold get_feature_files. cbn [default]. change (id (d :: ds)) with (d :: ds).
  cbn [foldl]. by rewrite foldl_add_feature_files.
Qed.

End discovery.

(** X7: A directory gives the same files with and without a [/] at its end. *)
Theorem get_feature_files_trailing_slash (glob : string → list string)
    (before after : list string) (directory : string) :
  Str.endswith "/" directory = false →
  GherkinParser.get_feature_files glob
    (Some (before ++ (directory +:+ "/") :: after))
  = GherkinParser.get_feature_files glob (Some (before ++ directory :: after)).
Proof.
  intros Hdir.
  by rewrite !get_feature_files_app, !get_feature_files_cons,
    add_feature_files_slash.
Qed.

Lemma get_feature_files_trailing_slash_witness :
  GherkinParser.get_feature_files
    (λ pattern, [pattern]) (Some ["a/"; "b" +:+ "/"; "c"])
  = GherkinParser.get_feature_files
      (λ pattern, [pattern]) (Some ["a/"; "b"; "c"]).
Proof.
  apply (get_feature_files_trailing_slash _ ["a/"] ["c"] "b"). reflexivity.
Defined.

(** X8: The files of a list of directories are those of its directories one
    after the other, in their order; a file found twice is listed twice. *)
Theorem get_feature_files_directories (glob : string → list string)
    (directories1 directories2 : list string) :
  GherkinParser.get_feature_files glob (Some (directories1 ++ directories2))
  = GherkinParser.get_feature_files glob (Some directories1)
    ++ GherkinParser.get_feature_files glob (Some directories2).
Proof. apply get_feature_files_app. Qed.

(** ** The whole run *)

Section whole_run.
Import GherkinParser.

Lemma get_steps_from_unreadable (fs : filesystem) (files : list file)
    (steps : gset step) (open_files : list string) (f : file) :
  f ∈ files → read fs f = None →
  (get_steps_from fs files steps open_files).1 = Raised.
Proof.
  intros Hf Hread. revert steps open_files.
  induction files as [|g files IH]; intros steps open_files.
  { by apply elem_of_nil in Hf. }
  cbn [get_steps_from]. destruct g as [[content|] | name]; [|done|].
  - apply elem_of_cons in Hf as [-> | Hf]; [done | by apply IH].
  - destruct (fs name) as [[content|]|] eqn:Hname; [|done..].
    apply elem_of_cons in Hf as [-> | Hf]; [|by apply IH].
    simpl in Hread. by rewrite Hname in Hread.
Qed.

Lemma get_steps_from_returned (fs : filesystem) (files : list file)
    (steps S : gset step) (open_files left_open : list string) :
  get_steps_from fs files steps open_files = (Returned S, left_open) →
  ∃ contents, Forall2 (λ f content, read fs f = Some content) files contents
              ∧ S = foldl get_steps_file steps contents.
Proof.
  revert steps open_files.
  induction files as [|g files IH]; intros steps open_files.
  { intros [= <- _]. by exists []. }
  cbn [get_steps_from]. destruct g as [[content|] | name]; [|done|].
  - intros (contents & Hread & ->)%IH. exists (content :: contents).
    split; [by constructor | done].
  - destruct (fs name) as [[content|]|] eqn:Hname; [|done..].
    intros (contents & Hread & ->)%IH. exists (content :: contents).
    split; [|done]. constructor; [|done]. simpl. by rewrite Hname.
Qed.

Lemma read_file_names (fs : filesystem) (names contents : list string) :
  Forall2 (λ name content, fs name = Some (Some content)) names contents →
  Forall2 (λ f content, read fs f = Some content) (FileName <$> names) contents.
Proof.
  induction 1 as [|name content names contents Hname _ IH]; [constructor|].
  constructor; [|done]. simpl. by rewrite Hname.
Qed.

(** The run, by what [get_steps_from] gives on the names found. *)
Lemma run_get_steps_from (glob : string → list string) (fs : filesystem)
    (directories : option (list string)) :
  run glob fs directories
  = match get_steps_from fs (FileName <$> get_feature_files glob directories)
            ∅ [] with
    | (Returned steps, open_files) =>
        (Returned (format_steps (Some steps)), open_files)
    | (Raised, open_files) => (Raised, open_files)
    end.
Proof. reflexivity. Qed.

Lemma format_steps_keywords (S : gset step) (keyword body : string) :
  (keyword, body) ∈ format_steps (Some S) →
  ∃ body0, (keyword, body0) ∈ S ∧ body = format_body body0.
Proof.
  rewrite format_steps_some.
  intros ([k b] & [= -> ->] & Hs)%elem_of_map. by exists b.
Qed.

End whole_run.

(** X9: When every file found in the directories is opened and read, [run]
    returns the steps of the texts read, formatted, and leaves no file
    open. *)
Theorem run_read (glob : string → list string) (fs : GherkinParser.filesystem)
    (directories : option (list string)) (contents : list string) :
  Forall2 (λ name content, fs name = Some (Some content))
    (GherkinParser.get_feature_files glob directories) contents →
  GherkinParser.run glob fs directories
  = (GherkinParser.Returned
       (GherkinParser.format_steps
          (Some (GherkinParser.get_steps (Some contents)))), []).
Proof.
  intros Hread%read_file_names. rewrite run_get_steps_from.
  by rewrite (get_steps_from_read fs _ _ ∅ [] Hread).
Qed.

Lemma run_read_witness :
  GherkinParser.run
    (λ pattern, if String.eqb pattern "features/*.feature"
                then ["features/apples.feature"] else [])
    (λ name, if String.eqb name "features/apples.feature"
             then Some (Some ("Given " +:+ Examples.step_five)) else None)
    (Some ["features"])
  = (GherkinParser.Returned
       (GherkinParser.format_steps
          (Some (GherkinParser.get_steps
                   (Some ["Given " +:+ Examples.step_five])))), []).
Proof. apply run_read. repeat constructor. Defined.

(** X10: When one of the files found cannot be opened, or cannot be read, [run]
    raises: it returns no steps, whatever the other files hold. *)
Theorem run_unreadable (glob : string → list string)
    (fs : GherkinParser.filesystem)
    (directories : option (list string)) (name : string) :
  name ∈ GherkinParser.get_feature_files glob directories →
  fs name = None ∨ fs name = Some None →
  (GherkinParser.run glob fs directories).1 = GherkinParser.Raised.
Proof.
  intros Hname Hread. rewrite run_get_steps_from.
  pose proof (get_steps_from_unreadable fs
                (GherkinParser.FileName
                   <$> GherkinParser.get_feature_files glob directories)
                ∅ [] (GherkinParser.FileName name)) as Hraised.
  destruct (GherkinParser.get_steps_from _ _ _ _) as [[S|] left_open];
    [|done].
  discriminate Hraised.
  - apply list_elem_of_fmap. by exists name.
  - simpl. by destruct Hread as [-> | ->].
Qed.

Lemma run_unreadable_witness :
  (GherkinParser.run (λ pattern, ["a.feature"; "b.feature"])
     (λ name, if String.eqb name "a.feature"
              then Some (Some "Given I have 2 apples") else None)
     (Some ["features"])).1
  = GherkinParser.Raised.
Proof.
  apply (run_unreadable _ _ _ "b.feature").
  - vm_compute. repeat constructor.
  - by left.
Defined.

(** X11: Every step of the catalogue [run] returns has for keyword the empty
    text or one of [given], [when], [then]. *)
Theorem run_keywords (glob : string → list string)
    (fs : GherkinParser.filesystem) (directories : option (list string))
    (S : gset step) (left_open : list string) (keyword body : string) :
  GherkinParser.run glob fs directories = (GherkinParser.Returned S, left_open) →
  (keyword, body) ∈ S →
  keyword = EmptyString ∨ keyword ∈ GherkinParser.main_words.
Proof.
  rewrite run_get_steps_from.
  destruct (GherkinParser.get_steps_from _ _ _ _) as [[S0|] left_open0] eqn:Hget;
    [|done].
  intros [= <- _].
  apply get_steps_from_returned in Hget as (contents & _ & ->).
  intros (body0 & Hs & _)%format_steps_keywords.
  by destruct (get_steps_well_formed contents _ Hs) as [? _].
Qed.

Lemma run_keywords_witness :
  "when" = EmptyString ∨ "when" ∈ GherkinParser.main_words.
Proof.
  apply (run_keywords
           (λ pattern, if String.eqb pattern "features/*.feature"
                       then ["features/apples.feature"] else [])
           (λ _, Some (Some "When I add 2 apples")) (Some ["features"])
           {[ ("when", "I add [number] apples") ]} [] "when"
           "I add [number] apples").
  - vm_compute. reflexivity.
  - apply elem_of_singleton. reflexivity.
Defined.

(** ** Formatting one body *)

Section one_value.
Import GherkinParser.

Lemma lazy_until_value (close : ascii) (v post : string) :
  Str.all (λ a, Re.dot a && negb (Ascii.eqb a close)) v = true →
  Re.lazy_until close (v +:+ String close post)
  = Some (v +:+ String close EmptyString).
Proof.
  induction v as [|a v IH]; cbn [Str.all].
  - intros _. change (EmptyString +:+ String close post) with (String close post).
    cbn [Re.lazy_until]. by rewrite Ascii.eqb_refl.
  - intros [[Hdot Ha%negb_true_iff]%andb_prop Hv]%andb_prop.
    rewrite !app_cons. cbn [Re.lazy_until]. by rewrite Ha, Hdot, (IH Hv).
Qed.

Lemma delimited_value (open close c : ascii) (v post : string) :
  Re.dot c = true →
  Str.all (λ a, Re.dot a && negb (Ascii.eqb a close)) v = true →
  Re.delimited open close
    (String open (String c (v +:+ String close post)))
  = Some (String open (String c (v +:+ String close EmptyString))).
Proof.
  intros Hc Hv. unfold Re.delimited.
  by rewrite Ascii.eqb_refl, Hc, (lazy_until_value _ _ _ Hv).
Qed.

(** In a plain text without digits, put before a text that starts with no
    digit, the scan finds nothing. *)
Lemma findall_plain_prefix (pre : string) (a : ascii) (rest : string) :
  plain pre = true → no_digit pre = true → Str.isdigit a = false →
  Re.findall regex (pre +:+ String a rest) = Re.findall regex (String a rest).
Proof.
  unfold plain, no_digit. induction pre as [|c pre IH]; [done|].
  cbn [Str.all]. intros [Hc%negb_true_iff Hpre]%andb_prop
    [Hdc%negb_true_iff Hdpre]%andb_prop Ha.
  rewrite app_cons, findall_cons, (regex_numeric c _ Hc).
  assert (Re.alt Re.number Re.dot_number (String c (pre +:+ String a rest))
          = None) as ->; [|by apply IH].
  unfold Re.alt, Re.number, Re.dot_number. cbn [Re.digits]. rewrite Hdc.
  cbn [Str.is_empty]. destruct (Ascii.eqb c "."); [|done].
  destruct pre as [|c' pre].
  - change (EmptyString +:+ String a rest) with (String a rest).
    cbn [Re.digits]. by rewrite Ha.
  - rewrite app_cons. cbn [Re.digits]. cbn [Str.all] in Hdpre.
    apply andb_prop in Hdpre as [Hc'%negb_true_iff _]. by rewrite Hc'.
Qed.

(** A text is replaced where it stands when its first character does not
    occur before it. *)
Lemma replace1_first_char (pre : string) (o : ascii) (m t r : string) :
  Str.all (λ a, negb (Ascii.eqb a o)) pre = true →
  Str.replace1 (String o m) t (pre +:+ String o m +:+ r) = pre +:+ t +:+ r.
Proof.
  induction pre as [|c pre IH]; cbn [Str.all].
  - intros _.
    change (Str.replace1 (String o m) t (String o (m +:+ r)) = t +:+ r).
    rewrite replace1_cons. cbn [Str.startswith].
    rewrite Ascii.eqb_refl, startswith_refl. cbn [andb String.length Str.drop].
    by rewrite drop_app.
  - intros [Hc%negb_true_iff Hpre]%andb_prop.
    change (String c pre +:+ String o m +:+ r)
      with (String c (pre +:+ String o m +:+ r)).
    change (String c pre +:+ t +:+ r) with (String c (pre +:+ t +:+ r)).
    rewrite replace1_cons. cbn [Str.startswith].
    rewrite Ascii.eqb_sym, Hc. cbn [andb]. by rewrite (IH Hpre).
Qed.

Lemma plain_no_opener (pre : string) (o : ascii) :
  opens_value o = true → plain pre = true →
  Str.all (λ a, negb (Ascii.eqb a o)) pre = true.
Proof.
  intros Ho. unfold plain. induction pre as [|c pre IH]; [done|].
  cbn [Str.all]. intros [Hc%negb_true_iff Hpre]%andb_prop.
  rewrite (IH Hpre), andb_true_r. apply negb_true_iff.
  destruct (Ascii.eqb_spec c o) as [-> | ?]; [congruence | done].
Qed.

(** The scan and the replacement of one value between marks, for a
    pattern [p] whose match at the first mark is that of the marks. *)
Lemma format_one_value (open close c : ascii) (token pre v post : string) :
  opens_value open = true → Str.isdigit open = false →
  (∀ s, regex (String open s) = Re.delimited open close (String open s)) →
  (∀ body m, replace_value body (String open m)
             = Str.replace1 (String open m) token body) →
  plain pre = true → no_digit pre = true →
  Re.dot c = true →
  Str.all (λ a, Re.dot a && negb (Ascii.eqb a close)) v = true →
  Re.findall regex post = [] →
  format_body (pre +:+ String open (String c (v +:+ String close post)))
  = pre +:+ token +:+ post.
Proof.
  intros Hopen Hdigit Hregex Hreplace Hplain Hnodigit Hc Hv Hpost.
  unfold format_body.
  rewrite (findall_plain_prefix _ _ _ Hplain Hnodigit Hdigit).
  rewrite findall_cons, Hregex, (delimited_value _ _ _ _ _ Hc Hv).
  cbn [String.length].
  replace (S (S (String.length (v +:+ String close EmptyString))) - 1)%nat
    with (S (String.length v + 1)) by (rewrite length_app'; simpl; lia).
  cbn [Str.drop].
  replace (v +:+ String close post)
    with ((v +:+ String close EmptyString) +:+ post)
    by (by rewrite app_assoc').
  replace (String.length v + 1)%nat
    with (String.length (v +:+ String close EmptyString))
    by (rewrite length_app'; simpl; lia).
  rewrite drop_app, Hpost. cbn [foldl]. rewrite Hreplace.
  change (String open (String c ((v +:+ String close EmptyString) +:+ post)))
    with (String open (String c (v +:+ String close EmptyString)) +:+ post).
  apply replace1_first_char. by apply plain_no_opener.
Qed.

Lemma numeric_at_mark (o : ascii) (s : string) :
  Str.isdigit o = false → Ascii.eqb o "." = false →
  Re.alt Re.number Re.dot_number (String o s) = None.
Proof.
  intros Hd Hdot. unfold Re.alt, Re.number, Re.dot_number. cbn [Re.digits].
  by rewrite Hd, Hdot.
Qed.

(** At an opening mark the pattern matches what the marks match. *)
Lemma regex_at_mark (open close : ascii) (token s : string) :
  (open, close, token) ∈ value_classes →
  regex (String open s) = Re.delimited open close (String open s).
Proof.
  unfold value_classes. rewrite !elem_of_cons, elem_of_nil.
  intros [[= -> -> ->] | [[= -> -> ->] | [[= -> -> ->] | []]]];
    unfold regex; unfold Re.alt at 1 2 3.
  - destruct (Re.delimited Str.dquote Str.dquote _); [done|].
    by rewrite !delimited_other, numeric_at_mark.
  - rewrite (delimited_other Str.dquote) by done.
    destruct (Re.delimited "'" "'" _); [done|].
    by rewrite !delimited_other, numeric_at_mark.
  - rewrite (delimited_other Str.dquote), (delimited_other "'") by done.
    destruct (Re.delimited "<" ">" _); [done|].
    by rewrite numeric_at_mark.
Qed.

End one_value.

(** X12: A value between double quotes, single quotes or angle brackets is
    replaced by its token where it stands, when the text before it has no
    digit and none of the three opening marks, and the scan finds nothing in
    the text behind it; the value is a character that is not a newline, then
    characters that are neither a newline nor the closing mark. *)
Theorem format_body_one_value (open close c : ascii)
    (token pre v post : string) :
  (open, close, token) ∈ GherkinParser.value_classes →
  GherkinParser.plain pre = true → GherkinParser.no_digit pre = true →
  Re.dot c = true →
  Str.all (λ a, Re.dot a && negb (Ascii.eqb a close)) v = true →
  Re.findall GherkinParser.regex post = [] →
  GherkinParser.format_body
    (pre +:+ String open (String c (v +:+ String close post)))
  = pre +:+ token +:+ post.
Proof.
  intros Hclass. apply format_one_value.
  - revert Hclass. unfold GherkinParser.value_classes.
    rewrite !elem_of_cons, elem_of_nil.
    by intros [[= -> -> ->] | [[= -> -> ->] | [[= -> -> ->] | []]]].
  - revert Hclass. unfold GherkinParser.value_classes.
    rewrite !elem_of_cons, elem_of_nil.
    by intros [[= -> -> ->] | [[= -> -> ->] | [[= -> -> ->] | []]]].
  - intros s. by apply (regex_at_mark open close token).
  - revert Hclass. unfold GherkinParser.value_classes.
    rewrite !elem_of_cons, elem_of_nil.
    by intros [[= -> -> ->] | [[= -> -> ->] | [[= -> -> ->] | []]]].
Qed.

Lemma format_body_one_value_witness :
  GherkinParser.format_body
    ("I see " +:+ String "<" (String "n" ("ame" +:+ String ">" " here")))
  = "I see " +:+ "<input>" +:+ " here".
Proof.
  apply (format_body_one_value "<" ">" "n" "<input>" "I see " "ame" " here");
    try (vm_compute; reflexivity).
  vm_compute. repeat constructor.
Defined.



(** * Further properties of the event listener *)

(** ** Matching the typed line *)

Section typed_line.
Import GherkinEventListener.

Lemma startswith_iff (p s : string) :
  Str.startswith p s = true ↔ ∃ rest, s = p +:+ rest.
Proof.
  split.
  - intros Hp. exists (Str.drop (String.length p) s). by apply startswith_app.
  - intros [rest ->]. apply startswith_refl.
Qed.

(** The words but the last, joined, start the words joined. *)
Lemma join_removelast (sep : string) (l : list string) :
  ∃ rest, Str.join sep l = Str.join sep (removelast l) +:+ rest.
Proof.
  induction l as [|x [|y l] IH].
  - by exists EmptyString.
  - by exists x.
  - destruct IH as [rest IH].
    change (removelast (x :: y :: l)) with (x :: removelast (y :: l)).
    change (Str.join sep (x :: y :: l)) with (x +:+ sep +:+ Str.join sep (y :: l)).
    destruct (removelast (y :: l)) as [|z l'] eqn:Hlast.
    + exists (sep +:+ Str.join sep (y :: l)). done.
    + exists rest. rewrite IH.
      change (Str.join sep (x :: z :: l'))
        with (x +:+ sep +:+ Str.join sep (z :: l')).
      by rewrite !app_assoc'.
Qed.

(** The first words, joined, start the words joined. *)
Lemma join_take (sep : string) (n : nat) (l : list string) :
  ∃ rest, Str.join sep l = Str.join sep (take n l) +:+ rest.
Proof.
  revert n. induction l as [|x l IH]; intros [|n]; try by eexists.
  destruct (IH n) as [rest Hrest]. cbn [take].
  destruct l as [|y l].
  - exists EmptyString. rewrite take_nil. by rewrite app_empty_r.
  - change (Str.join sep (x :: y :: l)) with (x +:+ sep +:+ Str.join sep (y :: l)).
    destruct (take n (y :: l)) as [|z l'] eqn:Htake.
    + by exists (sep +:+ Str.join sep (y :: l)).
    + exists rest. rewrite Hrest.
      change (Str.join sep (x :: z :: l'))
        with (x +:+ sep +:+ Str.join sep (z :: l')).
      by rewrite !app_assoc'.
Qed.

(** The characters of a text, taken out in turn of a text it starts, leave
    what follows it. *)
Lemma remove_chars_prefix (typed rest : string) :
  remove_chars typed (typed +:+ rest) = rest.
Proof.
  induction typed as [|c typed IH]; [done|].
  rewrite app_cons. cbn [remove_chars]. rewrite replace1_cons.
  cbn [Str.startswith]. by rewrite Ascii.eqb_refl.
Qed.

End typed_line.

(** X14: [_step_matches_line] returns true exactly when the words of the line
    behind its first word, joined by spaces, start the words of the step
    joined by spaces: some text, possibly empty, put behind the former gives
    the latter. *)
Theorem step_matches_line_prefix (step_words line_words : list string) :
  GherkinEventListener._step_matches_line step_words line_words = true
  ↔ ∃ rest, Str.join " " step_words = Str.join " " (tail line_words) +:+ rest.
Proof. rewrite step_matches_line_startswith. apply startswith_iff. Qed.

(** X15: A step matches every line whose words behind the first one are the first
    words of the step, however many, none included. *)
Theorem step_matches_first_words (step_words : list string) (w : string)
    (n : nat) :
  GherkinEventListener._step_matches_line step_words (w :: take n step_words)
  = true.
Proof.
  rewrite step_matches_line_startswith. apply startswith_iff.
  apply join_take.
Qed.

(** X16: When a step whose words are one space apart matches the typed line,
    its snippet for that line is the snippet of what is left of the step
    behind the typed words but the last: the typed text is cut off the
    front, character by character. *)
Theorem format_step_of_match (step : string) (line_words : list string) :
  GherkinEventListener._step_matches_line (Str.split step) line_words = true →
  Str.join " " (Str.split step) = step →
  GherkinEventListener._format_step step line_words
  = GherkinEventListener._format_step
      (Str.drop
         (String.length (Str.join " " (removelast (tail line_words)))) step)
      [].
Proof.
  rewrite step_matches_line_startswith. intros [rest Hrest]%startswith_iff Hstep.
  destruct (join_removelast " " (tail line_words)) as [last Hlast].
  rewrite Hstep, Hlast, app_assoc' in Hrest.
  assert (GherkinEventListener.remove_chars
            (Str.join " " (removelast (tail line_words))) step
          = Str.drop
              (String.length (Str.join " " (removelast (tail line_words))))
              step) as Hcut.
  { rewrite Hrest. by rewrite remove_chars_prefix, drop_app. }
  unfold GherkinEventListener._format_step. cbn [tail removelast Str.join].
  cbn [GherkinEventListener.remove_chars]. by rewrite Hcut.
Qed.

Lemma format_step_of_match_witness :
  GherkinEventListener._format_step Examples.step_input
    ["Given"; "I"; "have"; String Str.dquote "in"]
  = GherkinEventListener._format_step
      (Str.drop
         (String.length
            (Str.join " "
               (removelast (tail ["Given"; "I"; "have"; String Str.dquote "in"]))))
         Examples.step_input)
      [].
Proof.
  apply format_step_of_match; vm_compute; reflexivity.
Defined.

(** ** The snippet of a step *)

Section snippets.
Import GherkinEventListener.

Lemma marks_false (a : ascii) :
  marks a = false →
  GherkinParser.opens_value a = false ∧ Ascii.eqb a "[" = false.
Proof. unfold marks. by intros [? ?]%orb_false_elim. Qed.

(** At a character that starts no placeholder the pattern matches nothing. *)
Lemma regex_unmarked (a : ascii) (s : string) :
  marks a = false → regex (String a s) = None.
Proof.
  intros [(Hd & Hs & Hl)%opens_value_false Hb]%marks_false.
  unfold regex, Re.alt. rewrite !delimited_other by done.
  unfold Re.literal. cbn [Str.startswith].
  by rewrite Ascii.eqb_sym, Hb.
Qed.

Lemma findall_unmarked_prefix (pre s : string) :
  unmarked pre = true → Re.findall regex (pre +:+ s) = Re.findall regex s.
Proof.
  unfold unmarked. induction pre as [|c pre IH]; [done|].
  cbn [Str.all]. intros [Hc%negb_true_iff Hpre]%andb_prop.
  rewrite app_cons, findall_cons, (regex_unmarked c _ Hc). by apply IH.
Qed.

Lemma findall_unmarked (s : string) :
  unmarked s = true → Re.findall regex s = [].
Proof.
  intros Hs. rewrite <- (app_empty_r s).
  by rewrite (findall_unmarked_prefix s EmptyString Hs).
Qed.

(** At a placeholder the scan finds the placeholder and goes on behind it. *)
Lemma findall_placeholder (token : string) (template : nat → string)
    (post : string) :
  (token, template) ∈ snippet_classes →
  Re.findall regex (token +:+ post) = token :: Re.findall regex post.
Proof.
  unfold snippet_classes. rewrite !elem_of_cons, elem_of_nil.
  intros [[= -> _] | [[= -> _] | [[= -> _] | [[= -> _] | []]]]].
  - change (Str.quoted "input" +:+ post)
      with (String Str.dquote (String "i" ("nput" +:+ String Str.dquote post))).
    rewrite findall_cons. unfold regex, Re.alt.
    by rewrite (delimited_value Str.dquote Str.dquote "i" "nput" post).
  - change ("'input'" +:+ post)
      with (String "'" (String "i" ("nput" +:+ String "'" post))).
    rewrite findall_cons. unfold regex, Re.alt.
    rewrite (delimited_other Str.dquote) by done.
    by rewrite (delimited_value "'" "'" "i" "nput" post).
  - change ("<input>" +:+ post)
      with (String "<" (String "i" ("nput" +:+ String ">" post))).
    rewrite findall_cons. unfold regex, Re.alt.
    rewrite (delimited_other Str.dquote), (delimited_other "'") by done.
    by rewrite (delimited_value "<" ">" "i" "nput" post).
  - change ("[number]" +:+ post) with (String "[" ("number]" +:+ post)).
    rewrite findall_cons. unfold regex, Re.alt.
    rewrite !delimited_other by done. unfold Re.literal.
    change (String "[" ("number]" +:+ post)) with ("[number]" +:+ post).
    by rewrite startswith_refl.
Qed.

(** The replacement of a placeholder found, at an index. *)
Lemma snippet_value_placeholder (token : string) (template : nat → string)
    (step : string) (index : nat) :
  (token, template) ∈ snippet_classes →
  snippet_value (step, index) token
  = (Str.replace1 token (template index) step, S index).
Proof.
  unfold snippet_classes. rewrite !elem_of_cons, elem_of_nil.
  by intros [[= -> ->] | [[= -> ->] | [[= -> ->] | [[= -> ->] | []]]]].
Qed.

(** A placeholder is replaced where it stands when no character that
    starts a placeholder comes before it. *)
Lemma replace1_placeholder (token : string) (template : nat → string)
    (pre t post : string) :
  (token, template) ∈ snippet_classes → unmarked pre = true →
  Str.replace1 token t (pre +:+ token +:+ post) = pre +:+ t +:+ post.
Proof.
  intros Hclass Hpre.
  assert (∃ o m, token = String o m ∧ marks o = true) as (o & m & -> & Ho).
  { revert Hclass. unfold snippet_classes. rewrite !elem_of_cons, elem_of_nil.
    intros [[= -> _] | [[= -> _] | [[= -> _] | [[= -> _] | []]]]];
      by eexists _, _. }
  apply replace1_first_char.
  revert Hpre. unfold unmarked. clear -Ho.
  induction pre as [|c pre IH]; [done|]. cbn [Str.all].
  intros [Hc%negb_true_iff Hpre]%andb_prop. rewrite (IH Hpre), andb_true_r.
  apply negb_true_iff. destruct (Ascii.eqb_spec c o) as [-> | ?]; congruence.
Qed.

End snippets.

(** X17: A step without a character that starts a placeholder (a double quote,
    a single quote, a left angle bracket, a left square bracket) has for
    snippet, when no typed text is to be cut off, the step stripped. *)
Theorem format_step_unmarked (step : string) :
  GherkinEventListener.unmarked step = true →
  GherkinEventListener._format_step step [] = Str.strip step.
Proof.
  intros Hstep. unfold GherkinEventListener._format_step.
  cbn [tail removelast Str.join GherkinEventListener.remove_chars].
  by rewrite (findall_unmarked step Hstep).
Qed.

Lemma format_step_unmarked_witness :
  GherkinEventListener._format_step "  I go home " [] = "I go home".
Proof. apply (format_step_unmarked "  I go home "). reflexivity. Defined.

(** X18: A step with one placeholder, between texts without a character that
    starts a placeholder, has for snippet the step with the placeholder at
    index 1, stripped. *)
Theorem format_step_one_placeholder (token : string) (template : nat → string)
    (pre post : string) :
  (token, template) ∈ GherkinEventListener.snippet_classes →
  GherkinEventListener.unmarked pre = true →
  GherkinEventListener.unmarked post = true →
  GherkinEventListener._format_step (pre +:+ token +:+ post) []
  = Str.strip (pre +:+ template 1%nat +:+ post).
Proof.
  intros Hclass Hpre Hpost. unfold GherkinEventListener._format_step.
  cbn [tail removelast Str.join GherkinEventListener.remove_chars].
  rewrite (findall_unmarked_prefix _ _ Hpre),
    (findall_placeholder _ _ _ Hclass), (findall_unmarked _ Hpost).
  cbn [foldl]. rewrite (snippet_value_placeholder _ _ _ _ Hclass). cbn [fst].
  by rewrite (replace1_placeholder _ _ _ _ _ Hclass Hpre).
Qed.

Lemma format_step_one_placeholder_witness :
  GherkinEventListener._format_step ("I eat " +:+ "<input>" +:+ " pears") []
  = Str.strip ("I eat " +:+ "<${1:input}>" +:+ " pears").
Proof.
  apply (format_step_one_placeholder "<input>"
           (λ n, "<${" +:+ Str.of_nat n +:+ ":input}>") "I eat " " pears");
    try reflexivity.
  unfold GherkinEventListener.snippet_classes. repeat constructor.
Defined.

(** X19: In a step with two [[number]] placeholders the second index goes
    inside the first placeholder, and the second placeholder stays as it is:
    the text put for the first one holds [[number]] itself, and that is
    where [[number]] first occurs when the second one is replaced. *)
Theorem format_step_two_numbers (pre mid post : string) :
  GherkinEventListener.unmarked pre = true →
  GherkinEventListener.unmarked mid = true →
  GherkinEventListener.unmarked post = true →
  GherkinEventListener._format_step
    (pre +:+ "[number]" +:+ mid +:+ "[number]" +:+ post) []
  = Str.strip (pre +:+ "${1:${2:[number]}}" +:+ mid +:+ "[number]" +:+ post).
Proof.
  intros Hpre Hmid Hpost.
  assert (("[number]", λ n, "${" +:+ Str.of_nat n +:+ ":[number]}")
          ∈ GherkinEventListener.snippet_classes) as Hclass.
  { unfold GherkinEventListener.snippet_classes. repeat constructor. }
  unfold GherkinEventListener._format_step.
  cbn [tail removelast Str.join GherkinEventListener.remove_chars].
  rewrite (findall_unmarked_prefix _ _ Hpre),
    (findall_placeholder _ _ _ Hclass),
    (findall_unmarked_prefix _ _ Hmid),
    (findall_placeholder _ _ _ Hclass), (findall_unmarked _ Hpost).
  cbn [foldl]. rewrite !(snippet_value_placeholder _ _ _ _ Hclass). cbn [fst].
  rewrite (replace1_placeholder _ _ _ _ _ Hclass Hpre).
  change ("${" +:+ Str.of_nat 1 +:+ ":[number]}") with ("${1:" +:+ "[number]" +:+ "}").
  change ("${" +:+ Str.of_nat 2 +:+ ":[number]}") with "${2:[number]}".
  set (rest := mid +:+ "[number]" +:+ post).
  change (pre +:+ ("${1:" +:+ "[number]" +:+ "}") +:+ rest)
    with (pre +:+ "${1:" +:+ "[number]" +:+ "}" +:+ rest).
  rewrite <- (app_assoc' pre "${1:").
  rewrite (replace1_placeholder _ _ (pre +:+ "${1:") _ _ Hclass).
  - by rewrite app_assoc'.
  - unfold GherkinEventListener.unmarked in *. by rewrite all_app, Hpre.
Qed.

Lemma format_step_two_numbers_witness :
  GherkinEventListener._format_step
    ("I add " +:+ "[number]" +:+ " to " +:+ "[number]" +:+ " apples") []
  = Str.strip
      ("I add " +:+ "${1:${2:[number]}}" +:+ " to " +:+ "[number]" +:+ " apples").
Proof. apply format_step_two_numbers; reflexivity. Defined.

(** ** The keyword found *)

Section keyword_found.
Import GherkinEventListener.

Lemma scan_back_cons (region_text : string) (lines : list string) :
  scan_back (region_text :: lines)
  = match line_keyword region_text with
    | Some keyword => keyword
    | None => scan_back lines
    end.
Proof.
  unfold line_keyword. cbn [scan_back].
  destruct (Str.split_space1 _) as [|w ws]; [done|]. by case_bool_decide.
Qed.

Lemma line_keyword_keywords (region_text keyword : string) :
  line_keyword region_text = Some keyword → keyword ∈ keywords.
Proof.
  unfold line_keyword. destruct (Str.split_space1 _) as [|w ws]; [done|].
  case_bool_decide; [|done]. by intros [= <-].
Qed.

Lemma scan_back_keywords (lines : list string) :
  scan_back lines = EmptyString ∨ scan_back lines ∈ keywords.
Proof.
  induction lines as [|l lines IH]; [by left|]. rewrite scan_back_cons.
  destruct (line_keyword l) as [k|] eqn:Hl; [|done].
  right. by apply (line_keyword_keywords l).
Qed.

Lemma scan_back_none (lines : list string) :
  Forall (λ l, line_keyword l = None) lines → scan_back lines = EmptyString.
Proof.
  induction 1 as [|l lines Hl _ IH]; [done|]. by rewrite scan_back_cons, Hl.
Qed.

(** The scan back gives the keyword of the nearest line that has one. *)
Lemma scan_back_nearest (earlier later : list string) (line keyword : string) :
  line_keyword line = Some keyword →
  Forall (λ l, line_keyword l = None) later →
  scan_back (reverse (earlier ++ line :: later)) = keyword.
Proof.
  intros Hline Hlater. rewrite reverse_app, reverse_cons, <- app_assoc.
  apply Forall_reverse in Hlater.
  induction Hlater as [|l lines Hl _ IH]; cbn [app].
  - by rewrite scan_back_cons, Hline.
  - by rewrite scan_back_cons, Hl.
Qed.

(** The search when the current line does not start with a keyword. *)
Lemma find_last_keyword_scan (current_line_words preceding : list string) :
  (∀ w ws, current_line_words = w :: ws → Str.lower w ∉ keywords) →
  find_last_keyword current_line_words preceding
  = scan_back (reverse preceding).
Proof.
  intros Hw. unfold find_last_keyword.
  destruct current_line_words as [|w ws]; [done|].
  by rewrite bool_decide_false by (by apply (Hw w ws)).
Qed.

End keyword_found.

(** X20: The keyword found is the empty text or one of [given], [when],
    [then], in lower case, whatever the lines hold. *)
Theorem find_last_keyword_keywords
    (current_line_words preceding : list string) :
  GherkinEventListener.find_last_keyword current_line_words preceding
    = EmptyString
  ∨ GherkinEventListener.find_last_keyword current_line_words preceding
    ∈ GherkinEventListener.keywords.
Proof.
  unfold GherkinEventListener.find_last_keyword.
  destruct current_line_words as [|w ws]; [apply scan_back_keywords|].
  case_bool_decide; [by right | apply scan_back_keywords].
Qed.

(** X21: When the current line does not start with a keyword, the keyword found
    is that of the nearest line before it that starts with one: the lines
    between the two, which start with none, are passed over. *)
Theorem find_last_keyword_nearest (current_line_words : list string)
    (earlier later : list string) (line keyword : string) :
  (∀ w ws, current_line_words = w :: ws →
           Str.lower w ∉ GherkinEventListener.keywords) →
  GherkinEventListener.line_keyword line = Some keyword →
  Forall (λ l, GherkinEventListener.line_keyword l = None) later →
  GherkinEventListener.find_last_keyword current_line_words
    (earlier ++ line :: later)
  = keyword.
Proof.
  intros Hw Hline Hlater. rewrite (find_last_keyword_scan _ _ Hw).
  by apply scan_back_nearest.
Qed.

Lemma find_last_keyword_nearest_witness :
  GherkinEventListener.find_last_keyword ["But"; "I"; "wait"]
    (["Given I have 2 apples"] ++ "  THEN I eat one"
       :: ["  | a table |"; "And I eat another"])
  = "then".
Proof.
  apply find_last_keyword_nearest.
  - intros w ws [= <- _]. unfold GherkinEventListener.keywords.
    rewrite !elem_of_cons, elem_of_nil. by intros [|[|[|]]].
  - vm_compute. reflexivity.
  - repeat constructor.
Defined.

(** ** Filling the completions *)

Section filling.
Import GherkinEventListener.

Lemma fill_step_lookup (last_keyword : string) (words : list string)
    (completions : gmap string (string * string)) (st : string * string)
    (s : string) :
  (1 < length words)%nat →
  fill_step last_keyword words completions st !! s
  = if decide (st = (last_keyword, s)
               ∧ _step_matches_line (Str.split s) words = true)
    then Some (s +:+ Str.tab +:+ last_keyword, _format_step s words)
    else completions !! s.
Proof.
  intros Hwords. destruct st as [step_type step]. unfold fill_step.
  assert ((length words =? 1)%nat = false) as -> by (apply Nat.eqb_neq; lia).
  assert ((1 <? length words)%nat = true) as -> by (by apply Nat.ltb_lt).
  case_bool_decide as Htype.
  - subst step_type.
    destruct (_step_matches_line (Str.split step) words) eqn:Hmatch.
    + destruct (decide (step = s)) as [-> | Hne].
      * rewrite lookup_insert_eq. rewrite decide_True; [done|]. by rewrite Hmatch.
      * rewrite lookup_insert_ne by done.
        rewrite decide_False; [done|]. intros [[= ?] _]. done.
    + rewrite decide_False; [done|]. intros [[= ->] ?]. congruence.
  - rewrite decide_False; [done|]. intros [[= ? ?] _]. done.
Qed.

End filling.

(** X24: When the typed line has two words or more, the completions after the
    loop over the catalogue hold, for every step of the catalogue under the
    keyword found that matches the line, the suggestion of the step for the
    line; every other entry is what it was before: entries of earlier
    lines stay. *)
Theorem build_completions_lookup (steps : list (string * string))
    (last_keyword : string) (words : list string)
    (completions : gmap string (string * string)) (s : string) :
  (1 < length words)%nat →
  GherkinEventListener.build_completions steps last_keyword words completions
    !! s
  = if decide ((last_keyword, s) ∈ steps
               ∧ GherkinEventListener._step_matches_line (Str.split s) words
                 = true)
    then Some (s +:+ Str.tab +:+ last_keyword,
               GherkinEventListener._format_step s words)
    else completions !! s.
Proof.
  intros Hwords. unfold GherkinEventListener.build_completions.
  revert completions. induction steps as [|st steps IH]; intros completions.
  - cbn [foldl]. rewrite decide_False; [done|].
    by intros [[]%elem_of_nil _].
  - cbn [foldl]. rewrite IH, (fill_step_lookup _ _ _ _ _ Hwords).
    repeat case_decide; try done.
    + exfalso. set_solver.
    + exfalso. set_solver.
    + exfalso. set_solver.
Qed.

Lemma build_completions_lookup_witness :
  GherkinEventListener.build_completions
    [("given", "I have pears"); ("when", "I have apples")] "given"
    ["Given"; "I"; "ha"] {[ "I wait" := ("I wait", "I wait") ]} !! "I have pears"
  = Some ("I have pears" +:+ Str.tab +:+ "given",
          GherkinEventListener._format_step "I have pears" ["Given"; "I"; "ha"]).
Proof.
  rewrite build_completions_lookup by (simpl; lia).
  apply decide_True. split; [repeat constructor | reflexivity].
Defined.

Lemma fill_completions_one_word_witness :
  GherkinEventListener._fill_completions
    [("given", "I have pears")] ∅ "   Given  " []
  = (∅, []).
Proof.
  apply (fill_completions_one_word _ _ _ _ "Given"). reflexivity.
Defined.

(** X23: When neither the current line nor a line before it starts with a
    keyword, [_fill_completions] leaves the completions as they are; it
    logs the warning when the line, stripped, has a space in it. *)
Theorem fill_completions_no_keyword (steps : list (string * string))
    (completions : gmap string (string * string))
    (current_line : string) (preceding : list string) :
  (∀ w ws, Str.split (Str.strip current_line) = w :: ws →
           Str.lower w ∉ GherkinEventListener.keywords) →
  Forall (λ l, GherkinEventListener.line_keyword l = None) preceding →
  GherkinEventListener._fill_completions steps completions current_line
    preceding
  = (completions,
     if Str.contains " " (Str.strip current_line)
     then [GherkinEventListener.no_keyword_warning] else []).
Proof.
  intros Hw Hpreceding. unfold GherkinEventListener._fill_completions.
  destruct (Str.contains " " (Str.strip current_line)); [|done]. cbn [negb].
  rewrite (find_last_keyword_scan _ _ Hw), scan_back_none; [done|].
  by apply Forall_reverse.
Qed.

Lemma fill_completions_no_keyword_warning_witness :
  GherkinEventListener._fill_completions [("given", "I have pears")] ∅
    "And I wait" ["Feature: pears"; "  Scenario: eating"]
  = (∅, [GherkinEventListener.no_keyword_warning]).
Proof.
  apply (fill_completions_no_keyword _ _ "And I wait").
  - intros w ws [= <- _]. unfold GherkinEventListener.keywords.
    rewrite !elem_of_cons, elem_of_nil. by intros [|[|[|]]].
  - repeat constructor.
Defined.

(** ** The list of completions *)

Section ordering.
Import GherkinEventListener.

Lemma compare_refl (s : string) : String.compare s s = Eq.
Proof.
  pose proof (String.compare_antisym s s) as H.
  by destruct (String.compare s s).
Qed.

Lemma leb_trans (a b c : string) :
  String.leb a b = true → String.leb b c = true → String.leb a c = true.
Proof.
  intros Hab%Is_true_true Hbc%Is_true_true. apply Is_true_true.
  by apply (transitivity (R:=String.le) Hab Hbc).
Qed.

Lemma compare_lt_leb (a b : string) :
  String.compare a b = Lt → String.leb a b = true.
Proof. unfold String.leb. by intros ->. Qed.

Lemma compare_lt_trans (a b c : string) :
  String.compare a b = Lt → String.compare b c = Lt → String.compare a c = Lt.
Proof.
  intros Hab Hbc.
  pose proof (leb_trans a b c (compare_lt_leb _ _ Hab) (compare_lt_leb _ _ Hbc))
    as Hac.
  unfold String.leb in Hac.
  destruct (String.compare a c) eqn:Hcmp; [|done..].
  apply String.compare_eq_iff in Hcmp as ->.
  rewrite String.compare_antisym, Hbc in Hab. done.
Qed.

Global Instance tuple_le_total : Total (λ a b : string * string, tuple_le a b).
Proof.
  intros [a1 a2] [b1 b2]. unfold tuple_le. cbn [fst snd].
  rewrite (String.compare_antisym b1 a1).
  destruct (String.compare a1 b1); cbn [CompOpp]; [|by left | by right].
  destruct (String.leb_total a2 b2) as [-> | ->]; [by left | by right].
Qed.

Global Instance tuple_le_trans :
  Transitive (λ a b : string * string, tuple_le a b).
Proof.
  intros [a1 a2] [b1 b2] [c1 c2]. unfold tuple_le. cbn [fst snd].
  destruct (String.compare a1 b1) eqn:Hab; [| |done];
    destruct (String.compare b1 c1) eqn:Hbc; try done.
  - apply String.compare_eq_iff in Hab as ->, Hbc as ->.
    rewrite compare_refl. intros H1%Is_true_true H2%Is_true_true.
    apply Is_true_true. by apply (leb_trans a2 b2 c2).
  - apply String.compare_eq_iff in Hab as ->. by rewrite Hbc.
  - apply String.compare_eq_iff in Hbc as <-. by rewrite Hab.
  - by rewrite (compare_lt_trans a1 b1 c1).
Qed.

Global Instance tuple_le_antisymm :
  AntiSymm (=) (λ a b : string * string, tuple_le a b).
Proof.
  intros [a1 a2] [b1 b2]. unfold tuple_le. cbn [fst snd].
  rewrite (String.compare_antisym b1 a1).
  destruct (String.compare a1 b1) eqn:Hab; cbn [CompOpp]; [|done..].
  apply String.compare_eq_iff in Hab as ->.
  intros H1%Is_true_true H2%Is_true_true. f_equal.
  by apply String.leb_antisym.
Qed.

End ordering.

(** X25: [on_query_completions] returns the suggestions of the dict, each once,
    in ascending order, and leaves the dict empty; the list does not depend
    on the order in which the dict gives its entries. *)
Theorem on_query_completions_sorted
    (completions : gmap string (string * string)) :
  let '(suggestions, remaining) :=
    GherkinEventListener.on_query_completions completions in
  remaining = ∅
  ∧ suggestions ≡ₚ (map_to_list completions).*2
  ∧ StronglySorted (λ a b, GherkinEventListener.tuple_le a b) suggestions
  ∧ ∀ entries, entries ≡ₚ (map_to_list completions).*2 →
               GherkinEventListener.sorted entries = suggestions.
Proof.
  unfold GherkinEventListener.on_query_completions,
    GherkinEventListener.sorted.
  split; [done|]. split; [apply merge_sort_Permutation|].
  split; [apply StronglySorted_merge_sort; apply _|].
  intros entries Hentries.
  apply (StronglySorted_unique (λ a b, GherkinEventListener.tuple_le a b)).
  - apply StronglySorted_merge_sort; apply _.
  - apply StronglySorted_merge_sort; apply _.
  - by rewrite !merge_sort_Permutation.
Qed.

(** ** Feature files and the update of the catalogue *)

Section feature_files.
Import GherkinEventListener.

Lemma drop_suffix (n : nat) (s : string) : ∃ p, s = p +:+ Str.drop n s.
Proof.
  revert s. induction n as [|n IH]; intros s; [by exists EmptyString|].
  destruct s as [|c s]; [by exists EmptyString|].
  destruct (IH s) as [p Hp]. exists (String c p). cbn [Str.drop].
  by rewrite app_cons, <- Hp.
Qed.

Lemma endswith_iff (suffix s : string) :
  Str.endswith suffix s = true ↔ ∃ p, s = p +:+ suffix.
Proof.
  split.
  - unfold Str.endswith. intros [_ Heq%String.eqb_eq]%andb_prop.
    destruct (drop_suffix (String.length s - String.length suffix) s)
      as [p Hp].
    exists p. by rewrite <- Heq.
  - intros [p ->]. apply endswith_app.
Qed.

End feature_files.

(** X26: [_is_feature_file] accepts the views whose file has a name that ends
    with [.feature], and no other: not a view without a file, not a name
    with another ending. *)
Theorem is_feature_file_iff (file_name : option string) :
  GherkinEventListener._is_feature_file file_name = true
  ↔ ∃ base, file_name = Some (base +:+ ".feature").
Proof.
  unfold GherkinEventListener._is_feature_file. split.
  - destruct file_name as [name|]; [|done].
    intros [_ [base ->]%endswith_iff]%andb_prop. by exists base.
  - intros [base ->]. rewrite endswith_app, andb_true_r. by destruct base.
Qed.

(** X27: When one of the feature files of the folders and directories cannot be
    opened or read, [_update_steps] ends by the exception and the catalogue
    is left empty: the steps it held are gone. *)
Theorem update_steps_unreadable (glob : string → list string)
    (fs : GherkinParser.filesystem)
    (folders additional_directories : list string)
    (steps : list (string * string)) (name : string) :
  name ∈ GherkinParser.get_feature_files glob
           (Some (folders ++ additional_directories)) →
  fs name = None ∨ fs name = Some None →
  GherkinEventListener._update_steps glob fs folders additional_directories
    steps
  = ([], GherkinEventListener.UpdateRaised).
Proof.
  intros Hname Hread. unfold GherkinEventListener._update_steps.
  destruct (folders ++ additional_directories) as [|d ds] eqn:Hdirs.
  { by apply elem_of_nil in Hname. }
  rewrite run_get_steps_from.
  pose proof (get_steps_from_unreadable fs
                (GherkinParser.FileName
                   <$> GherkinParser.get_feature_files glob (Some (d :: ds)))
                ∅ [] (GherkinParser.FileName name)) as Hraised.
  destruct (GherkinParser.get_steps_from _ _ _ _) as [[S|] left_open];
    [|done].
  discriminate Hraised.
  - apply list_elem_of_fmap. by exists name.
  - simpl. by destruct Hread as [-> | ->].
Qed.

Lemma update_steps_unreadable_witness :
  GherkinEventListener._update_steps (λ pattern, ["a.feature"; "b.feature"])
    (λ name, if String.eqb name "a.feature"
             then Some (Some "Given I have 2 apples") else Some None)
    ["features"] [] [("given", "I have pears")]
  = ([], GherkinEventListener.UpdateRaised).
Proof.
  apply (update_steps_unreadable _ _ _ _ _ "b.feature").
  - vm_compute. repeat constructor.
  - by right.
Defined.


